(** * Denoiser.py: the conditional U-Net denoiser of CTFD

    A shallow embedding of [models/Denoiser.py].  The modules of the file
    ([MLP], [TimeEmbedding], [ResidualBlock], [DownBlock], [UpBlock],
    [MiddleBlock], [Upsample], [Downsample], [DenoiserUNet]) are records
    holding the layers their [__init__] creates; constructors and [forward]
    methods are functions into [result], the outcome of a Python call that
    either returns or raises.

    The tensor library (torch, einops) is external to the file.  Its
    operations are the fields of the class [Torch]; every [forward] is
    written once against that interface.  [ShapeTorch] instantiates the
    interface with tensors abstracted to their shapes, following the shape
    rules documented for each torch operation.  Learnable parameters are not
    modelled: a layer is identified by its hyper-parameters. *)

From Stdlib Require Import ZArith List Bool Lia QArith SpecFloat.
Import ListNotations.
Open Scope Z_scope.

(** ** Python calls: return or raise *)

Inductive exn : Set :=
| ValueError
| RuntimeError
| TypeError
| AttributeError
| IndexError
| ZeroDivisionError
| OverflowError.

Inductive result (A : Type) : Type :=
| Ok (a : A)
| Raise (e : exn).

Arguments Ok {A} a.
Arguments Raise {A} e.

Definition bind {A B : Type} (c : result A) (k : A -> result B) : result B :=
  match c with
  | Ok a => k a
  | Raise e => Raise e
  end.

Notation "x <- c ;; k" := (bind c (fun x => k))
  (at level 61, c at next level, right associativity).
Notation "' pat <- c ;; k" := (bind c (fun x => match x with pat => k end))
  (at level 61, pat pattern, c at next level, right associativity).

Definition returns {A : Type} (c : result A) : bool :=
  match c with Ok _ => true | Raise _ => false end.

Definition raises {A : Type} (c : result A) : bool := negb (returns c).

(** [l[i]] on a Python list. *)
Definition py_index {A : Type} (l : list A) (i : nat) : result A :=
  match nth_error l i with
  | Some a => Ok a
  | None => Raise IndexError
  end.

(** Attribute access on an attribute that [__init__] sets conditionally. *)
Definition getattr {A : Type} (a : option A) : result A :=
  match a with
  | Some v => Ok v
  | None => Raise AttributeError
  end.

(** ** torch.nn layers: hyper-parameters and constructor checks

    Constructors allocate parameter tensors, so a negative size raises
    [RuntimeError]; [GroupNorm] additionally raises [ValueError] when the
    channel count is not a multiple of the group count. *)

Record Conv2d : Set := mkConv2d {
  conv_in : Z;
  conv_out : Z;
  conv_kernel : Z * Z;
  conv_stride : Z * Z;
  conv_padding : Z * Z;
  conv_dilation : Z * Z
}.

Record ConvTranspose2d : Set := mkConvTranspose2d {
  convt_in : Z;
  convt_out : Z;
  convt_kernel : Z * Z;
  convt_stride : Z * Z;
  convt_padding : Z * Z
}.

Record GroupNorm : Set := mkGroupNorm {
  gn_num_groups : Z;
  gn_num_channels : Z
}.

Record LayerNorm : Set := mkLayerNorm { ln_normalized_shape : Z }.

Record Linear : Set := mkLinear {
  lin_in : Z;
  lin_out : Z
}.

Record Dropout : Set := mkDropout { drop_p : Q }.

(** [torch.nn.modules.utils._pair]: an int stands for the pair of itself. *)
Definition _pair (k : Z) : Z * Z := (k, k).

Definition nn_Conv2d (in_channels out_channels : Z)
    (kernel_size stride padding dilation : Z * Z) : result Conv2d :=
  if (in_channels <? 0) || (out_channels <? 0) then Raise RuntimeError
  else Ok (mkConv2d in_channels out_channels kernel_size stride padding dilation).

Definition nn_ConvTranspose2d (in_channels out_channels : Z)
    (kernel_size stride padding : Z * Z) : result ConvTranspose2d :=
  if (in_channels <? 0) || (out_channels <? 0) then Raise RuntimeError
  else Ok (mkConvTranspose2d in_channels out_channels kernel_size stride padding).

Definition nn_GroupNorm (num_groups num_channels : Z) : result GroupNorm :=
  if negb (num_channels mod num_groups =? 0) then Raise ValueError
  else if num_channels <? 0 then Raise RuntimeError
  else Ok (mkGroupNorm num_groups num_channels).

Definition nn_LayerNorm (normalized_shape : Z) : result LayerNorm :=
  if normalized_shape <? 0 then Raise RuntimeError
  else Ok (mkLayerNorm normalized_shape).

Definition nn_Linear (in_features out_features : Z) : result Linear :=
  if (in_features <? 0) || (out_features <? 0) then Raise RuntimeError
  else Ok (mkLinear in_features out_features).

(** The layers an [nn.Sequential] of this file can hold. *)
Inductive Layer : Set :=
| LLayerNorm (l : LayerNorm)
| LLinear (l : Linear)
| LReLU.

Definition Sequential : Set := list Layer.

(** The attention module of [models/Stripformer_Attention.py], constructed
    from a channel count and an optional [flag]. *)
Record Stripformer : Set := mkStripformer {
  sf_input_channels : Z;
  sf_flag : option Z
}.

(** ** The tensor library *)

Class Torch : Type := {
  Tensor : Type;
  (** Python floats computed outside tensors *)
  Scalar : Type;
  (** [math.log(10_000) / d] for a non-zero [d], and unary minus *)
  log10000_div : Z -> Scalar;
  scalar_neg : Scalar -> Scalar;
  (** [x.shape] *)
  shape : Tensor -> list Z;
  (** [torch.tensor(l)] for a list of ints *)
  tensor_of_ints : list Z -> Tensor;
  (** layers *)
  conv2d : Conv2d -> Tensor -> result Tensor;
  conv_transpose2d : ConvTranspose2d -> Tensor -> result Tensor;
  group_norm : GroupNorm -> Tensor -> result Tensor;
  layer_norm : LayerNorm -> Tensor -> result Tensor;
  linear : Linear -> Tensor -> result Tensor;
  dropout : Dropout -> Tensor -> Tensor;
  stripformer : Stripformer -> Tensor -> result Tensor;
  (** elementwise functions *)
  relu : Tensor -> Tensor;
  sigmoid : Tensor -> Tensor;
  tsin : Tensor -> Tensor;
  tcos : Tensor -> Tensor;
  texp : Tensor -> Tensor;
  mul_scalar : Tensor -> Scalar -> Tensor;
  (** broadcasting [a * b], [a + b], and in-place [a += b] *)
  mul : Tensor -> Tensor -> result Tensor;
  add : Tensor -> Tensor -> result Tensor;
  iadd : Tensor -> Tensor -> result Tensor;
  (** [torch.cat((a, b), dim=1)] *)
  cat1 : Tensor -> Tensor -> result Tensor;
  (** [torch.arange(n)] *)
  arange : Z -> result Tensor;
  (** [t[:, None]], [t[None, :]] and [t[:, :, None, None]] *)
  index_col : Tensor -> result Tensor;
  index_row : Tensor -> result Tensor;
  index_hw : Tensor -> result Tensor;
  (** einops: ['b c h w -> b (h w) c'] and ['b (h w) c -> b c h w'] *)
  rearrange_to_seq : Tensor -> result Tensor;
  rearrange_to_map : Z -> Z -> Tensor -> result Tensor
}.

(** ** get_pad *)

(** Python floats and numpy's [float64] are IEEE binary64 numbers; their
    arithmetic rounds to nearest, ties to even. *)
Module Float64.

Definition prec : Z := 53.
Definition emax : Z := 1024.

(** [float(z)]: the nearest binary64 number, [OverflowError] when it is not
    finite. *)
Definition of_int (z : Z) : result spec_float :=
  match binary_normalize prec emax z 0 false with
  | S754_infinity _ => Raise OverflowError
  | x => Ok x
  end.

Definition add : spec_float -> spec_float -> spec_float := SFadd prec emax.
Definition sub : spec_float -> spec_float -> spec_float := SFsub prec emax.
Definition mul : spec_float -> spec_float -> spec_float := SFmul prec emax.
Definition div : spec_float -> spec_float -> spec_float := SFdiv prec emax.

(** [np.ceil] *)
Definition ceil (x : spec_float) : spec_float :=
  match x with
  | S754_finite s m e =>
      if 0 <=? e then x
      else
        let d := 2 ^ (- e) in
        if s then binary_normalize prec emax (- (Z.pos m / d)) 0 true
        else binary_normalize prec emax (- (- Z.pos m / d)) 0 false
  | _ => x
  end.

(** [int(x)]: truncation toward zero; infinities and NaN cannot be
    converted. *)
Definition to_int (x : spec_float) : result Z :=
  match x with
  | S754_zero _ => Ok 0
  | S754_finite s m e =>
      let a := if 0 <=? e then Z.pos m * 2 ^ e else Z.pos m / 2 ^ (- e) in
      Ok (if s then - a else a)
  | S754_infinity _ => Raise OverflowError
  | S754_nan => Raise ValueError
  end.

End Float64.

(** The int operands of the float operations are converted to binary64
    first; the division raises on a zero stride. *)
Definition get_pad (in_ ksize stride atrous : Z) : result Z :=
  fin <- Float64.of_int in_ ;;
  fstride <- Float64.of_int stride ;;
  q <- (if stride =? 0 then Raise ZeroDivisionError
        else Ok (Float64.div fin fstride)) ;;
  let out_ := Float64.ceil q in
  one <- Float64.of_int 1 ;;
  let x := Float64.mul (Float64.sub out_ one) fstride in
  k <- Float64.of_int (atrous * (ksize - 1)) ;;
  let x := Float64.add x k in
  let x := Float64.add x one in
  let x := Float64.sub x fin in
  two <- Float64.of_int 2 ;;
  Float64.to_int (Float64.div x two).

(** ** Module records and constructors *)

Record MLP : Set := mkMLP {
  mlp_conv : Conv2d;
  mlp_fc : Sequential
}.

Definition MLP_init (embedding_size forward_expansion : Z) : result MLP :=
  conv <- nn_Conv2d embedding_size embedding_size (_pair 3) (_pair 1) (_pair 1) (_pair 1) ;;
  ln1 <- nn_LayerNorm embedding_size ;;
  fc1 <- nn_Linear embedding_size (forward_expansion * embedding_size) ;;
  fc2 <- nn_Linear (forward_expansion * embedding_size) embedding_size ;;
  ln2 <- nn_LayerNorm embedding_size ;;
  Ok (mkMLP conv [LLayerNorm ln1; LLinear fc1; LReLU; LLinear fc2; LLayerNorm ln2]).

Definition Normalize (in_channels : Z) : result GroupNorm :=
  nn_GroupNorm 32 in_channels.

Record TimeEmbedding : Set := mkTimeEmbedding {
  te_n_channels : Z;
  te_lin1 : Linear;
  te_lin2 : Linear
}.

Definition TimeEmbedding_init (n_channels : Z) : result TimeEmbedding :=
  lin1 <- nn_Linear (n_channels / 4) n_channels ;;
  lin2 <- nn_Linear n_channels n_channels ;;
  Ok (mkTimeEmbedding n_channels lin1 lin2).

Inductive Shortcut : Set :=
| ShortcutConv (c : Conv2d)
| ShortcutIdentity.

Record ResidualBlock : Set := mkResidualBlock {
  rb_is_noise : bool;
  rb_norm1 : GroupNorm;
  rb_conv1 : Conv2d;
  rb_norm2 : GroupNorm;
  rb_conv2 : Conv2d;
  rb_shortcut : Shortcut;
  rb_time_emb : option Linear;
  rb_dropout : Dropout
}.

Definition ResidualBlock_init (in_channels out_channels time_channels : Z)
    (dropout_p : Q) (is_noise : bool) : result ResidualBlock :=
  norm1 <- Normalize in_channels ;;
  conv1 <- nn_Conv2d in_channels out_channels (3, 3) (_pair 1) (1, 1) (_pair 1) ;;
  norm2 <- Normalize out_channels ;;
  conv2 <- nn_Conv2d out_channels out_channels (3, 3) (_pair 1) (1, 1) (_pair 1) ;;
  shortcut <- (if negb (in_channels =? out_channels)
               then c <- nn_Conv2d in_channels out_channels (1, 1) (_pair 1) (_pair 0) (_pair 1) ;;
                    Ok (ShortcutConv c)
               else Ok ShortcutIdentity) ;;
  time_emb <- (if is_noise
               then l <- nn_Linear time_channels out_channels ;; Ok (Some l)
               else Ok None) ;;
  Ok (mkResidualBlock is_noise norm1 conv1 norm2 conv2 shortcut time_emb
        (mkDropout dropout_p)).

Record DownBlock : Set := mkDownBlock {
  db_res : ResidualBlock;
  db_att : Stripformer;
  db_mlp : MLP;
  db_flag : Z
}.

Definition DownBlock_init (in_channels out_channels time_channels flag : Z)
    (is_noise : bool) : result DownBlock :=
  res <- ResidualBlock_init in_channels out_channels time_channels (1 # 10) is_noise ;;
  let att := mkStripformer out_channels (Some 0) in
  mlp <- MLP_init out_channels 2 ;;
  Ok (mkDownBlock res att mlp flag).

Record UpBlock : Set := mkUpBlock {
  ub_res : ResidualBlock;
  ub_att : Stripformer;
  ub_mlp : MLP;
  ub_flag1 : Z;
  ub_flag2 : Z
}.

Definition UpBlock_init (in_channels out_channels time_channels flag2 : Z)
    (is_noise : bool) (flag1 : Z) : result UpBlock :=
  res <- ResidualBlock_init (in_channels + out_channels) out_channels time_channels
           (1 # 10) is_noise ;;
  let att := mkStripformer out_channels (Some 0) in
  mlp <- MLP_init out_channels 2 ;;
  Ok (mkUpBlock res att mlp flag1 flag2).

Record MiddleBlock : Set := mkMiddleBlock {
  mb_res1 : ResidualBlock;
  mb_dia1 : Conv2d;
  mb_dia2 : Conv2d;
  mb_sf : Stripformer;
  mb_dia3 : Conv2d;
  mb_dia4 : Conv2d;
  mb_res2 : ResidualBlock
}.

Definition MiddleBlock_init (n_channels time_channels : Z) (is_noise : bool)
    : result MiddleBlock :=
  res1 <- ResidualBlock_init n_channels n_channels time_channels (1 # 10) is_noise ;;
  p1 <- get_pad 16 3 1 2 ;;
  dia1 <- nn_Conv2d n_channels n_channels (_pair 3) (_pair 1) (_pair p1) (_pair 2) ;;
  p2 <- get_pad 16 3 1 4 ;;
  dia2 <- nn_Conv2d n_channels n_channels (_pair 3) (_pair 1) (_pair p2) (_pair 4) ;;
  let sf := mkStripformer n_channels None in
  p3 <- get_pad 16 3 1 8 ;;
  dia3 <- nn_Conv2d n_channels n_channels (_pair 3) (_pair 1) (_pair p3) (_pair 8) ;;
  p4 <- get_pad 16 3 1 16 ;;
  dia4 <- nn_Conv2d n_channels n_channels (_pair 3) (_pair 1) (_pair p4) (_pair 16) ;;
  res2 <- ResidualBlock_init n_channels n_channels time_channels (1 # 10) is_noise ;;
  Ok (mkMiddleBlock res1 dia1 dia2 sf dia3 dia4 res2).

Record Upsample : Set := mkUpsample { us_conv : ConvTranspose2d }.

Definition Upsample_init (n_channels : Z) : result Upsample :=
  conv <- nn_ConvTranspose2d n_channels n_channels (4, 4) (2, 2) (1, 1) ;;
  Ok (mkUpsample conv).

Record Downsample : Set := mkDownsample { ds_conv : Conv2d }.

Definition Downsample_init (n_channels : Z) : result Downsample :=
  conv <- nn_Conv2d n_channels n_channels (3, 3) (2, 2) (1, 1) (_pair 1) ;;
  Ok (mkDownsample conv).

(** The members of the [nn.ModuleList]s [down] and [up]. *)
Inductive Module_ : Set :=
| MDownBlock (m : DownBlock)
| MUpBlock (m : UpBlock)
| MUpsample (m : Upsample)
| MDownsample (m : Downsample).

(** [isinstance(m, Upsample)] *)
Definition isinstance_Upsample (m : Module_) : bool :=
  match m with
  | MUpsample _ => true
  | _ => false
  end.

Record DenoiserUNet : Set := mkDenoiserUNet {
  image_proj : Conv2d;
  is_noise : bool;
  time_emb : option TimeEmbedding;
  down : list Module_;
  middle : MiddleBlock;
  up : list Module_;
  final : Conv2d
}.

Section Init.

Variables (n_channels : Z) (ch_mults : list Z) (n_blocks : Z) (is_noise : bool).

Let n_resolutions : nat := length ch_mults.

(** The inner loop of the first half: [n] more passes of
    [for j in range(n_blocks)], appending a [DownBlock] and setting
    [in_channels = out_channels]. *)
Fixpoint down_blocks (n : nat) (i : nat) (in_channels out_channels : Z)
    (down : list Module_) : result (Z * list Module_) :=
  match n with
  | O => Ok (in_channels, down)
  | S n' =>
      b <- DownBlock_init in_channels out_channels (n_channels * 4) (Z.of_nat i) is_noise ;;
      down_blocks n' i out_channels out_channels (down ++ [MDownBlock b])
  end.

(** [for i in range(n_resolutions)], over the values of [i] still to come. *)
Fixpoint down_levels (levels : list nat) (in_channels out_channels : Z)
    (down : list Module_) : result (Z * Z * list Module_) :=
  match levels with
  | [] => Ok (in_channels, out_channels, down)
  | i :: levels' =>
      m <- py_index ch_mults i ;;
      let out_channels := n_channels * m in
      '(in_channels, down) <-
        down_blocks (Z.to_nat n_blocks) i in_channels out_channels down ;;
      down <- (if Z.of_nat i <? Z.of_nat n_resolutions - 1
               then d <- Downsample_init in_channels ;; Ok (down ++ [MDownsample d])
               else Ok down) ;;
      down_levels levels' in_channels out_channels down
  end.

(** The inner loop of the second half: [in_channels] is not reassigned. *)
Fixpoint up_blocks (n : nat) (i : nat) (in_channels out_channels : Z)
    (up : list Module_) : result (list Module_) :=
  match n with
  | O => Ok up
  | S n' =>
      b <- UpBlock_init in_channels out_channels (n_channels * 4) (Z.of_nat i) is_noise 0 ;;
      up_blocks n' i in_channels out_channels (up ++ [MUpBlock b])
  end.

(** [for i in reversed(range(n_resolutions))] *)
Fixpoint up_levels (levels : list nat) (in_channels : Z) (up : list Module_)
    : result (Z * list Module_) :=
  match levels with
  | [] => Ok (in_channels, up)
  | i :: levels' =>
      m <- py_index ch_mults i ;;
      let out_channels := n_channels * m in
      up <- up_blocks (Z.to_nat n_blocks) i in_channels out_channels up ;;
      m' <- (if (1 <=? i)%nat then py_index ch_mults (i - 1) else Ok 1) ;;
      let in_channels := n_channels * m' in
      b <- UpBlock_init in_channels out_channels (n_channels * 4) (Z.of_nat i) is_noise 1 ;;
      let up := up ++ [MUpBlock b] in
      let in_channels := out_channels in
      up <- (if (0 <? i)%nat
             then u <- Upsample_init in_channels ;; Ok (up ++ [MUpsample u])
             else Ok up) ;;
      up_levels levels' in_channels up
  end.

End Init.

Definition DenoiserUNet_init (input_channels output_channels n_channels : Z)
    (ch_mults : list Z) (n_blocks : Z) (is_noise : bool) : result DenoiserUNet :=
  let n_resolutions := length ch_mults in
  image_proj <- nn_Conv2d input_channels n_channels (3, 3) (_pair 1) (1, 1) (_pair 1) ;;
  time_emb <- (if is_noise
               then te <- TimeEmbedding_init (n_channels * 4) ;; Ok (Some te)
               else Ok None) ;;
  '(in_channels, out_channels, down) <-
    down_levels n_channels ch_mults n_blocks is_noise
      (seq 0 n_resolutions) n_channels n_channels [] ;;
  middle <- MiddleBlock_init out_channels (n_channels * 4) false ;;
  let in_channels := out_channels in
  '(in_channels, up) <-
    up_levels n_channels ch_mults n_blocks is_noise
      (rev (seq 0 n_resolutions)) in_channels [] ;;
  final <- nn_Conv2d in_channels output_channels (3, 3) (_pair 1) (1, 1) (_pair 1) ;;
  Ok (mkDenoiserUNet image_proj is_noise time_emb down middle up final).

(** ** Forward passes, over any tensor library *)

Section Forward.

Context {torch : Torch}.

(** [B, C, H, W = x.shape] *)
Definition unpack4 (s : list Z) : result (Z * Z * Z * Z) :=
  match s with
  | [b; c; h; w] => Ok (b, c, h, w)
  | _ => Raise ValueError
  end.

Definition Layer_forward (l : Layer) (x : Tensor) : result Tensor :=
  match l with
  | LLayerNorm n => layer_norm n x
  | LLinear f => linear f x
  | LReLU => Ok (relu x)
  end.

Fixpoint Sequential_forward (s : Sequential) (x : Tensor) : result Tensor :=
  match s with
  | [] => Ok x
  | l :: s' => y <- Layer_forward l x ;; Sequential_forward s' y
  end.

Definition MLP_forward (self : MLP) (x : Tensor) : result Tensor :=
  '(_, _, H, W) <- unpack4 (shape x) ;;
  hx <- conv2d (mlp_conv self) x ;;
  hx <- rearrange_to_seq hx ;;
  hx <- Sequential_forward (mlp_fc self) hx ;;
  hx <- rearrange_to_map H W hx ;;
  hx <- conv2d (mlp_conv self) hx ;;
  add hx x.

Definition Swish_forward (x : Tensor) : result Tensor :=
  mul x (sigmoid x).

(** [t] is [None] or a tensor; [t.device] is the first use of [t]. *)
Definition TimeEmbedding_forward (self : TimeEmbedding) (t : option Tensor)
    : result Tensor :=
  let half_dim := te_n_channels self / 8 in
  emb <- (if half_dim - 1 =? 0 then Raise ZeroDivisionError
          else Ok (log10000_div (half_dim - 1))) ;;
  t <- (match t with Some t => Ok t | None => Raise AttributeError end) ;;
  r <- arange half_dim ;;
  let emb := texp (mul_scalar r (scalar_neg emb)) in
  tc <- index_col t ;;
  er <- index_row emb ;;
  emb <- mul tc er ;;
  emb <- cat1 (tsin emb) (tcos emb) ;;
  emb <- linear (te_lin1 self) emb ;;
  emb <- Swish_forward emb ;;
  linear (te_lin2 self) emb.

Definition Shortcut_forward (s : Shortcut) (x : Tensor) : result Tensor :=
  match s with
  | ShortcutConv c => conv2d c x
  | ShortcutIdentity => Ok x
  end.

Definition ResidualBlock_forward (self : ResidualBlock) (x : Tensor)
    (t : option Tensor) : result Tensor :=
  h <- group_norm (rb_norm1 self) x ;;
  a <- Swish_forward h ;;
  h <- conv2d (rb_conv1 self) a ;;
  h <- (if rb_is_noise self
        then
          l <- getattr (rb_time_emb self) ;;
          a <- (match t with Some t => Swish_forward t | None => Raise TypeError end) ;;
          e <- linear l a ;;
          e <- index_hw e ;;
          iadd h e
        else Ok h) ;;
  h <- group_norm (rb_norm2 self) h ;;
  a <- Swish_forward h ;;
  h <- conv2d (rb_conv2 self) (dropout (rb_dropout self) a) ;;
  s <- Shortcut_forward (rb_shortcut self) x ;;
  add h s.

Definition DownBlock_forward (self : DownBlock) (x : Tensor) (t : option Tensor)
    : result Tensor :=
  x <- ResidualBlock_forward (db_res self) x t ;;
  x <- MLP_forward (db_mlp self) x ;;
  if db_flag self >=? 2 then stripformer (db_att self) x else Ok x.

(** [if self.flag1] is Python truthiness of an int. *)
Definition UpBlock_forward (self : UpBlock) (x : Tensor) (t : option Tensor)
    : result Tensor :=
  x <- ResidualBlock_forward (ub_res self) x t ;;
  x <- (if negb (ub_flag1 self =? 0) then MLP_forward (ub_mlp self) x else Ok x) ;;
  if negb (ub_flag1 self =? 0) && (ub_flag2 self >=? 2)
  then stripformer (ub_att self) x
  else Ok x.

Definition MiddleBlock_forward (self : MiddleBlock) (x : Tensor) (t : option Tensor)
    : result Tensor :=
  x <- ResidualBlock_forward (mb_res1 self) x t ;;
  x <- conv2d (mb_dia1 self) x ;;
  x <- conv2d (mb_dia2 self) x ;;
  x <- stripformer (mb_sf self) x ;;
  x <- conv2d (mb_dia3 self) x ;;
  x <- conv2d (mb_dia4 self) x ;;
  ResidualBlock_forward (mb_res2 self) x t.

Definition Upsample_forward (self : Upsample) (x : Tensor) (t : option Tensor)
    : result Tensor :=
  conv_transpose2d (us_conv self) x.

Definition Downsample_forward (self : Downsample) (x : Tensor) (t : option Tensor)
    : result Tensor :=
  conv2d (ds_conv self) x.

(** [m(x, t)] *)
Definition Module_call (m : Module_) (x : Tensor) (t : option Tensor)
    : result Tensor :=
  match m with
  | MDownBlock b => DownBlock_forward b x t
  | MUpBlock b => UpBlock_forward b x t
  | MUpsample u => Upsample_forward u x t
  | MDownsample d => Downsample_forward d x t
  end.

(** The skip stack [h] is kept with its last element first, so
    [h.append(x)] is a cons and [h.pop()] takes the head. *)
Definition pop (h : list Tensor) : result (Tensor * list Tensor) :=
  match h with
  | s :: h' => Ok (s, h')
  | [] => Raise IndexError
  end.

(** [for m in self.down: x = m(x, t); h.append(x)] *)
Fixpoint down_loop (ms : list Module_) (x : Tensor) (t : option Tensor)
    (h : list Tensor) : result (Tensor * list Tensor) :=
  match ms with
  | [] => Ok (x, h)
  | m :: ms' =>
      x <- Module_call m x t ;;
      down_loop ms' x t (x :: h)
  end.

(** [for m in self.up: ...] *)
Fixpoint up_loop (ms : list Module_) (x : Tensor) (t : option Tensor)
    (h : list Tensor) : result (Tensor * list Tensor) :=
  match ms with
  | [] => Ok (x, h)
  | m :: ms' =>
      if isinstance_Upsample m
      then
        x <- Module_call m x t ;;
        up_loop ms' x t h
      else
        '(s, h) <- pop h ;;
        x <- cat1 x s ;;
        x <- Module_call m x t ;;
        up_loop ms' x t h
  end.

(** [DenoiserUNet.forward], returning with its result the skip stack as the
    up loop leaves it. *)
Definition forward_skips (self : DenoiserUNet) (x : Tensor) (t : option Tensor)
    : result (Tensor * list Tensor) :=
  t <- (if is_noise self
        then
          te <- getattr (time_emb self) ;;
          e <- TimeEmbedding_forward te t ;;
          Ok (Some e)
        else Ok None) ;;
  x <- conv2d (image_proj self) x ;;
  let h := [x] in
  '(x, h) <- down_loop (down self) x t h ;;
  x <- MiddleBlock_forward (middle self) x t ;;
  '(x, h) <- up_loop (up self) x t h ;;
  a <- Swish_forward x ;;
  y <- conv2d (final self) a ;;
  Ok (y, h).

Definition forward (self : DenoiserUNet) (x : Tensor) (t : option Tensor)
    : result Tensor :=
  '(y, _) <- forward_skips self x t ;;
  Ok y.

(** A call [self.forward(x)]: [t] takes the default of the signature,
    [torch.tensor([0])]. *)
Definition forward_default (self : DenoiserUNet) (x : Tensor) : result Tensor :=
  forward self x (Some (tensor_of_ints [0])).

End Forward.

(** ** Tensors as shapes

    A tensor is abstracted to its shape, a list of dimension sizes.  Each
    operation follows the shape rule torch documents for it and raises where
    torch rejects the operand shapes. *)

Module Shape.

Fixpoint eqb (a b : list Z) : bool :=
  match a, b with
  | [], [] => true
  | x :: a', y :: b' => (x =? y) && eqb a' b'
  | _, _ => false
  end.

(** Broadcasting aligns trailing dimensions; the lists are reversed. *)
Fixpoint broadcast_rev (a b : list Z) : result (list Z) :=
  match a, b with
  | [], _ => Ok b
  | _, [] => Ok a
  | x :: a', y :: b' =>
      r <- broadcast_rev a' b' ;;
      if x =? y then Ok (x :: r)
      else if x =? 1 then Ok (y :: r)
      else if y =? 1 then Ok (x :: r)
      else Raise RuntimeError
  end.

Definition broadcast (a b : list Z) : result (list Z) :=
  r <- broadcast_rev (rev a) (rev b) ;;
  Ok (rev r).

(** The result of an in-place operation keeps the shape of its target. *)
Definition broadcast_into (a b : list Z) : result (list Z) :=
  r <- broadcast a b ;;
  if eqb r a then Ok a else Raise RuntimeError.

(** Output size of a convolution along one spatial dimension; the padded
    input has to cover the dilated kernel. *)
Definition conv_size (i k s p d : Z) : result Z :=
  let span := d * (k - 1) + 1 in
  if i + 2 * p <? span then Raise RuntimeError
  else Ok ((i + 2 * p - span) / s + 1).

(** Output size of a transposed convolution (dilation 1, no output
    padding); an empty output is rejected. *)
Definition conv_transpose_size (i k s p : Z) : result Z :=
  let o := (i - 1) * s - 2 * p + (k - 1) + 1 in
  if o <? 1 then Raise RuntimeError else Ok o.

(** A layer without output channels has an empty weight, which the
    convolution rejects; the input is a batch [[B, C, H, W]] or a single
    map [[C, H, W]]. *)
Definition conv2d_map (c : Conv2d) (ch h w : Z) : result (Z * Z) :=
  if conv_out c <? 1 then Raise RuntimeError
  else if negb (ch =? conv_in c) then Raise RuntimeError
  else
    h' <- conv_size h (fst (conv_kernel c)) (fst (conv_stride c))
            (fst (conv_padding c)) (fst (conv_dilation c)) ;;
    w' <- conv_size w (snd (conv_kernel c)) (snd (conv_stride c))
            (snd (conv_padding c)) (snd (conv_dilation c)) ;;
    Ok (h', w').

Definition conv2d (c : Conv2d) (x : list Z) : result (list Z) :=
  match x with
  | [b; ch; h; w] =>
      '(h', w') <- conv2d_map c ch h w ;; Ok [b; conv_out c; h'; w']
  | [ch; h; w] =>
      '(h', w') <- conv2d_map c ch h w ;; Ok [conv_out c; h'; w']
  | _ => Raise RuntimeError
  end.

(** The weight of a transposed convolution has the input channels first. *)
Definition conv_transpose2d_map (c : ConvTranspose2d) (ch h w : Z)
    : result (Z * Z) :=
  if convt_in c <? 1 then Raise RuntimeError
  else if negb (ch =? convt_in c) then Raise RuntimeError
  else
    h' <- conv_transpose_size h (fst (convt_kernel c)) (fst (convt_stride c))
            (fst (convt_padding c)) ;;
    w' <- conv_transpose_size w (snd (convt_kernel c)) (snd (convt_stride c))
            (snd (convt_padding c)) ;;
    Ok (h', w').

Definition conv_transpose2d (c : ConvTranspose2d) (x : list Z) : result (list Z) :=
  match x with
  | [b; ch; h; w] =>
      '(h', w') <- conv_transpose2d_map c ch h w ;; Ok [b; convt_out c; h'; w']
  | [ch; h; w] =>
      '(h', w') <- conv_transpose2d_map c ch h w ;; Ok [convt_out c; h'; w']
  | _ => Raise RuntimeError
  end.

(** [F.group_norm] first refuses an input with a single value per group,
    [(B * C // num_groups) * prod(rest) = 1], with [ValueError]; the channel
    count is compared after that. *)
Definition group_norm (g : GroupNorm) (x : list Z) : result (list Z) :=
  match x with
  | b :: ch :: rest =>
      if b * ch / gn_num_groups g * fold_right Z.mul 1 rest =? 1
      then Raise ValueError
      else if ch =? gn_num_channels g then Ok x
      else Raise RuntimeError
  | _ => Raise RuntimeError
  end.

Definition layer_norm (l : LayerNorm) (x : list Z) : result (list Z) :=
  match rev x with
  | d :: _ => if d =? ln_normalized_shape l then Ok x else Raise RuntimeError
  | [] => Raise RuntimeError
  end.

Definition linear (l : Linear) (x : list Z) : result (list Z) :=
  match rev x with
  | d :: r => if d =? lin_in l then Ok (rev (lin_out l :: r)) else Raise RuntimeError
  | [] => Raise RuntimeError
  end.

Definition cat1 (x y : list Z) : result (list Z) :=
  match x, y with
  | b1 :: c1 :: r1, b2 :: c2 :: r2 =>
      if (b1 =? b2) && eqb r1 r2 then Ok (b1 :: c1 + c2 :: r1)
      else Raise RuntimeError
  | _, _ => Raise IndexError
  end.

Definition arange (n : Z) : result (list Z) :=
  if n <? 0 then Raise RuntimeError else Ok [n].

Definition index_col (x : list Z) : result (list Z) :=
  match x with
  | d :: r => Ok (d :: 1 :: r)
  | [] => Raise IndexError
  end.

Definition index_row (x : list Z) : result (list Z) :=
  match x with
  | d :: r => Ok (1 :: d :: r)
  | [] => Raise IndexError
  end.

Definition index_hw (x : list Z) : result (list Z) :=
  match x with
  | b :: c :: r => Ok (b :: c :: 1 :: 1 :: r)
  | _ => Raise IndexError
  end.

Definition rearrange_to_seq (x : list Z) : result (list Z) :=
  match x with
  | [b; c; h; w] => Ok [b; h * w; c]
  | _ => Raise RuntimeError
  end.

Definition rearrange_to_map (h w : Z) (x : list Z) : result (list Z) :=
  match x with
  | [b; n; c] => if n =? h * w then Ok [b; c; h; w] else Raise RuntimeError
  | _ => Raise RuntimeError
  end.

(** Modelled from the spec: the class [Stripformer] of
    [models/Stripformer_Attention.py] is not part of the file; the spec
    gives its contract, "given a feature map of shape [B,C,H,W], returns a
    feature map of the same shape". *)
Definition stripformer (s : Stripformer) (x : list Z) : result (list Z) :=
  match x with
  | [_; _; _; _] => Ok x
  | _ => Raise RuntimeError
  end.

End Shape.

#[export] Instance ShapeTorch : Torch := {|
  Tensor := list Z;
  Scalar := unit;
  log10000_div := fun _ => tt;
  scalar_neg := fun s => s;
  shape := fun x => x;
  tensor_of_ints := fun l => [Z.of_nat (length l)];
  conv2d := Shape.conv2d;
  conv_transpose2d := Shape.conv_transpose2d;
  group_norm := Shape.group_norm;
  layer_norm := Shape.layer_norm;
  linear := Shape.linear;
  dropout := fun _ x => x;
  stripformer := Shape.stripformer;
  relu := fun x => x;
  sigmoid := fun x => x;
  tsin := fun x => x;
  tcos := fun x => x;
  texp := fun x => x;
  mul_scalar := fun x _ => x;
  mul := Shape.broadcast;
  add := Shape.broadcast;
  iadd := Shape.broadcast_into;
  cat1 := Shape.cat1;
  arange := Shape.arange;
  index_col := Shape.index_col;
  index_row := Shape.index_row;
  index_hw := Shape.index_hw;
  rearrange_to_seq := Shape.rearrange_to_seq;
  rearrange_to_map := Shape.rearrange_to_map
|}.

(** ** Notions used in the statements *)

(** The 3x3 convolution of stride 1 and padding 1 used throughout. *)
Definition conv3x3 (ci co : Z) : Conv2d :=
  mkConv2d ci co (3, 3) (1, 1) (1, 1) (1, 1).

(** The pipeline of [MLP.forward] with the layers [MLP.__init__] creates for
    [C] channels written out. *)
Definition MLP_steps {torch : Torch} (C : Z) (x : Tensor) : result Tensor :=
  '(_, _, H, W) <- unpack4 (shape x) ;;
  hx <- conv2d (conv3x3 C C) x ;;
  hx <- rearrange_to_seq hx ;;
  hx <- layer_norm (mkLayerNorm C) hx ;;
  hx <- linear (mkLinear C (2 * C)) hx ;;
  hx <- linear (mkLinear (2 * C) C) (relu hx) ;;
  hx <- layer_norm (mkLayerNorm C) hx ;;
  hx <- rearrange_to_map H W hx ;;
  hx <- conv2d (conv3x3 C C) hx ;;
  add hx x.

(** With conditioning disabled, [forward] is the pass below: [t] never
    reaches it. *)
Definition forward_unconditioned {torch : Torch} (self : DenoiserUNet) (x : Tensor)
    : result Tensor :=
  x <- conv2d (image_proj self) x ;;
  '(x, h) <- down_loop (down self) x None [x] ;;
  x <- MiddleBlock_forward (middle self) x None ;;
  '(x, h) <- up_loop (up self) x None h ;;
  a <- Swish_forward x ;;
  conv2d (final self) a.

(** [forward] pushes once after the image projection and once per module of
    [down]; it pops once per module of [up] that is not an [Upsample]. *)
Definition pushes (m : DenoiserUNet) : nat := S (length (down m)).

Definition consumers (ms : list Module_) : nat :=
  length (filter (fun m => negb (isinstance_Upsample m)) ms).

Definition pops (m : DenoiserUNet) : nat := consumers (up m).

(** The levels after which the constructor appends a [Downsample]. *)
Definition downsampled (n_resolutions : nat) (levels : list nat) : list nat :=
  filter (fun i => Z.of_nat i <? Z.of_nat n_resolutions - 1) levels.

(** The conditioning a block built with [is_noise = isn] can take next to a
    feature map of batch size [B]: anything when the block is unconditioned,
    else an embedding [[Bt, tc]] whose batch size is [B] or 1. *)
Definition conditioning_fits (isn : bool) (tc B : Z) (t : option (list Z)) : Prop :=
  isn = false \/ exists Bt, t = Some [Bt; tc] /\ (Bt = B \/ Bt = 1).

(** The up stack is wired for its skips when there is one block per
    resolution or when no two neighbouring levels differ in width. *)
Definition widths_agree (ch_mults : list Z) (n_blocks : Z) : Prop :=
  n_blocks = 1 \/
  forall i, (S i < length ch_mults)%nat -> nth i ch_mults 0 = nth (S i) ch_mults 0.

(** The width of the skip the last [UpBlock] of level [k] pops, in units of
    [n_channels]: [ch_mults[k-1] if k >= 1 else 1]. *)
Definition below (ch_mults : list Z) (k : nat) : Z :=
  match k with
  | O => 1
  | S j => nth j ch_mults 0
  end.

(** The last module of level [k] of the up stack is an [Upsample] unless
    [k] is 0: the factor by which the level scales height and width. *)
Definition upscale (k : nat) : Z :=
  match k with
  | O => 1
  | S _ => 2
  end.

(** The timestep argument a model built with [is_noise = isn] can take next
    to an input of batch size [B]: anything when conditioning is disabled,
    else a batch [[Bt]] of timesteps with [Bt] equal to [B] or to 1. *)
Definition timestep_fits (isn : bool) (B : Z) (t : option (list Z)) : Prop :=
  isn = false \/ exists Bt, t = Some [Bt] /\ (Bt = B \/ Bt = 1).

(** [isinstance(m, Downsample)] *)
Definition isinstance_Downsample (m : Module_) : bool :=
  match m with
  | MDownsample _ => true
  | _ => false
  end.

(** What [__init__] puts in the down stack: [DownBlock]s whose residual
    block carries the conditioning flag [isn], and [Downsample]s. *)
Definition down_member (isn : bool) (m : Module_) : Prop :=
  match m with
  | MDownBlock b => rb_is_noise (db_res b) = isn
  | MDownsample _ => True
  | _ => False
  end.

(** What [__init__] puts in the up stack: [UpBlock]s whose residual block
    carries the conditioning flag [isn], and [Upsample]s. *)
Definition up_member (isn : bool) (m : Module_) : Prop :=
  match m with
  | MUpBlock b => rb_is_noise (ub_res b) = isn
  | MUpsample _ => True
  | _ => False
  end.

(** The integers [lo, ..., lo + len - 1]. *)
Definition Z_range (lo : Z) (len : nat) : list Z :=
  map (fun k => lo + Z.of_nat k) (seq 0 len).

(** Whether a call returned the value [z]. *)
Definition is_Ok (r : result Z) (z : Z) : bool :=
  match r with
  | Ok y => y =? z
  | Raise _ => false
  end.

(** A batch of [B] feature maps of [H] by [W] values with more than one
    value per channel, which is what [F.group_norm] asks of its input. *)
Definition batch_of_maps (B H W : Z) : Prop :=
  0 < B /\ 0 < H /\ 0 < W /\ 1 < B * (H * W).

(** * Properties *)

(** ** Reasoning about calls *)

Lemma bind_Ok {A B : Type} (c : result A) (k : A -> result B) (b : B) :
  bind c k = Ok b -> exists a, c = Ok a /\ k a = Ok b.
Proof.
  destruct c as [a | e]; simpl; intros Hk.
  - exists a. split; [reflexivity | exact Hk].
  - discriminate.
Qed.

(** Splits a hypothesis [x <- c ;; k = Ok b] into [c = Ok a] and [k a = Ok b],
    repeatedly. *)
Ltac bind_inv H :=
  let a := fresh "v" in
  let Ha := fresh "E" in
  apply bind_Ok in H; destruct H as (a & Ha & H).

Ltac if_inv H :=
  match type of H with
  | (if ?b then _ else _) = _ =>
      let Hb := fresh "Hb" in destruct b eqn:Hb; [ | ]; try discriminate H
  end.

Lemma nn_Conv2d_Ok ci co k s p d c :
  nn_Conv2d ci co k s p d = Ok c -> c = mkConv2d ci co k s p d /\ 0 <= ci /\ 0 <= co.
Proof.
  unfold nn_Conv2d. intros H. if_inv H.
  apply orb_false_iff in Hb. destruct Hb as [H1 H2].
  injection H as <-. repeat split; lia.
Qed.

Lemma nn_Conv2d_nonneg ci co k s p d :
  0 <= ci -> 0 <= co -> nn_Conv2d ci co k s p d = Ok (mkConv2d ci co k s p d).
Proof.
  intros H1 H2. unfold nn_Conv2d.
  replace (ci <? 0) with false by (symmetry; apply Z.ltb_ge; lia).
  replace (co <? 0) with false by (symmetry; apply Z.ltb_ge; lia).
  reflexivity.
Qed.

Lemma nn_Linear_Ok i o l :
  nn_Linear i o = Ok l -> l = mkLinear i o /\ 0 <= i /\ 0 <= o.
Proof.
  unfold nn_Linear. intros H. if_inv H.
  apply orb_false_iff in Hb. destruct Hb as [H1 H2].
  injection H as <-. repeat split; lia.
Qed.

Lemma nn_Linear_nonneg i o :
  0 <= i -> 0 <= o -> nn_Linear i o = Ok (mkLinear i o).
Proof.
  intros H1 H2. unfold nn_Linear.
  replace (i <? 0) with false by (symmetry; apply Z.ltb_ge; lia).
  replace (o <? 0) with false by (symmetry; apply Z.ltb_ge; lia).
  reflexivity.
Qed.

Lemma nn_LayerNorm_Ok n l :
  nn_LayerNorm n = Ok l -> l = mkLayerNorm n /\ 0 <= n.
Proof.
  unfold nn_LayerNorm. intros H. if_inv H.
  injection H as <-. split; [reflexivity | lia].
Qed.

Lemma nn_LayerNorm_nonneg n :
  0 <= n -> nn_LayerNorm n = Ok (mkLayerNorm n).
Proof.
  intros H. unfold nn_LayerNorm.
  replace (n <? 0) with false by (symmetry; apply Z.ltb_ge; lia).
  reflexivity.
Qed.

Lemma nn_GroupNorm_Ok g n r :
  nn_GroupNorm g n = Ok r -> r = mkGroupNorm g n /\ n mod g = 0 /\ 0 <= n.
Proof.
  unfold nn_GroupNorm. intros H. if_inv H. if_inv H.
  injection H as <-. apply negb_false_iff in Hb.
  repeat split; lia.
Qed.

(** ** TimeEmbedding *)

Lemma TimeEmbedding_init_nonneg n :
  0 <= n ->
  TimeEmbedding_init n = Ok (mkTimeEmbedding n (mkLinear (n / 4) n) (mkLinear n n)).
Proof.
  intros Hn. unfold TimeEmbedding_init.
  rewrite nn_Linear_nonneg by (try apply Z.div_pos; lia). simpl.
  rewrite nn_Linear_nonneg by lia. reflexivity.
Qed.

Lemma TimeEmbedding_forward_half_dim_1 {torch : Torch} (te : TimeEmbedding)
    (t : option Tensor) :
  te_n_channels te / 8 = 1 -> TimeEmbedding_forward te t = Raise ZeroDivisionError.
Proof.
  intros H. unfold TimeEmbedding_forward. rewrite H. reflexivity.
Qed.

(** C4, as the code has it: the constructor of [TimeEmbedding] validates
    nothing.  It returns for every channel count [n >= 0], those with
    [half_dim = n // 8 <= 1] included; when [half_dim = 1] the division by
    zero happens in [forward], which raises [ZeroDivisionError] on every
    call, whatever the tensor library and the timestep. *)
Theorem TimeEmbedding_init_accepts_small (n : Z) :
  0 <= n ->
  exists te,
    TimeEmbedding_init n = Ok te /\
    te_n_channels te = n /\
    (n / 8 = 1 ->
     forall (torch : Torch) (t : option Tensor),
       TimeEmbedding_forward te t = Raise ZeroDivisionError).
Proof.
  intros Hn. eexists. split; [apply TimeEmbedding_init_nonneg; exact Hn | ].
  split; [reflexivity | ].
  intros Hh torch t. apply TimeEmbedding_forward_half_dim_1. exact Hh.
Qed.

Lemma TimeEmbedding_init_accepts_small_witness :
  exists te,
    TimeEmbedding_init 8 = Ok te /\
    te_n_channels te = 8 /\
    (8 / 8 = 1 ->
     forall (torch : Torch) (t : option Tensor),
       TimeEmbedding_forward te t = Raise ZeroDivisionError).
Proof.
  apply (TimeEmbedding_init_accepts_small 8). lia.
Defined.

(** C4, as stated, fails: 8 channels give [half_dim = 1], and the constructor
    returns a module instead of raising. *)
Lemma TimeEmbedding_init_8_returns :
  8 / 8 <= 1 /\ raises (TimeEmbedding_init 8) = false.
Proof.
  split; [vm_compute; discriminate | reflexivity].
Qed.

(** ** Shape rules *)

Lemma Shape_eqb_refl (a : list Z) : Shape.eqb a a = true.
Proof.
  induction a as [| x a IH]; simpl; [reflexivity | ].
  rewrite Z.eqb_refl. exact IH.
Qed.

Lemma Shape_broadcast_rev_refl (a : list Z) : Shape.broadcast_rev a a = Ok a.
Proof.
  induction a as [| x a IH]; simpl; [reflexivity | ].
  rewrite IH. simpl. rewrite Z.eqb_refl. reflexivity.
Qed.

Lemma Shape_broadcast_refl (a : list Z) : Shape.broadcast a a = Ok a.
Proof.
  unfold Shape.broadcast. rewrite Shape_broadcast_rev_refl. simpl.
  rewrite rev_involutive. reflexivity.
Qed.

(** A stride-1 convolution whose padding equals its dilation keeps the size
    of a 3-wide kernel's input. *)
Lemma conv_size_same (i d : Z) :
  0 < i -> Shape.conv_size i 3 1 d d = Ok i.
Proof.
  intros Hi. unfold Shape.conv_size.
  replace (i + 2 * d <? d * (3 - 1) + 1) with false
    by (symmetry; apply Z.ltb_ge; lia).
  f_equal. rewrite Z.div_1_r. lia.
Qed.

Lemma conv_size_half (i : Z) :
  0 < i -> Z.even i = true -> Shape.conv_size i 3 2 1 1 = Ok (i / 2).
Proof.
  intros Hi He. unfold Shape.conv_size.
  replace (i + 2 * 1 <? 1 * (3 - 1) + 1) with false
    by (symmetry; apply Z.ltb_ge; lia).
  f_equal. apply Z.even_spec in He. destruct He as [k ->].
  replace (2 * k + 2 * 1 - (1 * (3 - 1) + 1)) with (1 + (k - 1) * 2) by lia.
  rewrite Z.div_add by lia.
  replace (2 * k) with (k * 2) by lia. rewrite Z.div_mul by lia.
  change (1 / 2) with 0. lia.
Qed.

Lemma conv_transpose_size_double (i : Z) :
  0 < i -> Shape.conv_transpose_size i 4 2 1 = Ok (2 * i).
Proof.
  intros Hi. unfold Shape.conv_transpose_size.
  replace ((i - 1) * 2 - 2 * 1 + (4 - 1) + 1 <? 1) with false
    by (symmetry; apply Z.ltb_ge; lia).
  f_equal. lia.
Qed.

Lemma conv2d_same (n d B H W : Z) :
  0 < n -> 0 < H -> 0 < W ->
  Shape.conv2d (mkConv2d n n (3, 3) (1, 1) (d, d) (d, d)) [B; n; H; W]
  = Ok [B; n; H; W].
Proof.
  intros Hn HH HW. unfold Shape.conv2d, Shape.conv2d_map.
  cbn [conv_in conv_out conv_kernel conv_stride conv_padding conv_dilation fst snd].
  replace (n <? 1) with false by (symmetry; apply Z.ltb_ge; lia).
  rewrite Z.eqb_refl. cbn [negb].
  rewrite !conv_size_same by assumption. reflexivity.
Qed.

(** ** get_pad and the dilated convolutions of MiddleBlock *)

Lemma get_pad_16_3_1 (d : Z) :
  In d [2; 4; 8; 16] -> get_pad 16 3 1 d = Ok d.
Proof.
  intros Hd. cbn [In] in Hd.
  destruct Hd as [<- | [<- | [<- | [<- | []]]]]; vm_compute; reflexivity.
Qed.

Lemma MiddleBlock_init_Ok (n tc : Z) (isn : bool) (mb : MiddleBlock) :
  MiddleBlock_init n tc isn = Ok mb ->
  exists r1 r2,
    ResidualBlock_init n n tc (1 # 10) isn = Ok r1 /\
    ResidualBlock_init n n tc (1 # 10) isn = Ok r2 /\
    mb = mkMiddleBlock r1
           (mkConv2d n n (3, 3) (1, 1) (2, 2) (2, 2))
           (mkConv2d n n (3, 3) (1, 1) (4, 4) (4, 4))
           (mkStripformer n None)
           (mkConv2d n n (3, 3) (1, 1) (8, 8) (8, 8))
           (mkConv2d n n (3, 3) (1, 1) (16, 16) (16, 16))
           r2.
Proof.
  unfold MiddleBlock_init. intros H.
  rewrite !get_pad_16_3_1 in H by (cbn [In]; tauto). cbn [bind] in H.
  bind_inv H. bind_inv H. bind_inv H. bind_inv H. bind_inv H. bind_inv H.
  apply nn_Conv2d_Ok in E0, E1, E2, E3.
  destruct E0 as [-> _], E1 as [-> _], E2 as [-> _], E3 as [-> _].
  injection H as <-. exists v, v4. repeat split; assumption.
Qed.

(** C6: [get_pad(16, 3, 1, d)] is [d] for the four dilations [2, 4, 8, 16],
    so each dilated 3x3 stride-1 convolution that [MiddleBlock.__init__]
    builds has padding equal to its dilation and, in a block of [n > 0]
    channels, maps a feature map [B, n, H, W] to a feature map of the same
    shape, for every height and width, although the size passed to
    [get_pad] is the constant 16. *)
Theorem MiddleBlock_dilated_convs_preserve_size :
  (forall d, In d [2; 4; 8; 16] -> get_pad 16 3 1 d = Ok d) /\
  (forall n tc isn mb,
     MiddleBlock_init n tc isn = Ok mb ->
     [mb_dia1 mb; mb_dia2 mb; mb_dia3 mb; mb_dia4 mb]
     = map (fun d => mkConv2d n n (3, 3) (1, 1) (d, d) (d, d)) [2; 4; 8; 16] /\
     forall c, In c [mb_dia1 mb; mb_dia2 mb; mb_dia3 mb; mb_dia4 mb] ->
     forall B H W, 0 < n -> 0 < H -> 0 < W ->
       Shape.conv2d c [B; n; H; W] = Ok [B; n; H; W]).
Proof.
  split.
  - intros d Hd. apply get_pad_16_3_1. exact Hd.
  - intros n tc isn mb Hinit.
    apply MiddleBlock_init_Ok in Hinit. destruct Hinit as (r1 & r2 & _ & _ & ->).
    split; [reflexivity | ].
    intros c Hc B H W Hn HH HW. simpl in Hc.
    destruct Hc as [<- | [<- | [<- | [<- | []]]]]; apply conv2d_same; assumption.
Qed.

Lemma MiddleBlock_dilated_convs_preserve_size_witness :
  exists mb,
    MiddleBlock_init 128 128 false = Ok mb /\
    get_pad 16 3 1 16 = Ok 16 /\
    Shape.conv2d (mb_dia4 mb) [1; 128; 8; 8] = Ok [1; 128; 8; 8].
Proof.
  eexists. split; [vm_compute; reflexivity | ].
  destruct MiddleBlock_dilated_convs_preserve_size as [Hpad Hconv].
  split.
  - apply Hpad. simpl. tauto.
  - refine (proj2 (Hconv 128 128 false _ _) _ _ 1 8 8 _ _ _).
    + vm_compute. reflexivity.
    + simpl. tauto.
    + lia.
    + lia.
    + lia.
Defined.

(** ** Downsample and Upsample *)

(** C9: built for [C > 0] channels, [Downsample] halves the height and width
    of a feature map with even sizes, [Upsample] doubles them, and
    [Downsample] followed by [Upsample] gives a [B, C, 64, 64] feature map
    its shape back. *)
Theorem Downsample_Upsample_shapes (B C : Z) (t : option (list Z)) :
  0 < C ->
  exists d u,
    Downsample_init C = Ok d /\
    Upsample_init C = Ok u /\
    (forall H W, 0 < H -> 0 < W -> Z.even H = true -> Z.even W = true ->
       Downsample_forward (torch := ShapeTorch) d [B; C; H; W] t
       = Ok [B; C; H / 2; W / 2]) /\
    (forall H W, 0 < H -> 0 < W ->
       Upsample_forward (torch := ShapeTorch) u [B; C; H; W] t
       = Ok [B; C; 2 * H; 2 * W]) /\
    (x <- Downsample_forward (torch := ShapeTorch) d [B; C; 64; 64] t ;;
     Upsample_forward u x t) = Ok [B; C; 64; 64].
Proof.
  intros HC.
  exists (mkDownsample (mkConv2d C C (3, 3) (2, 2) (1, 1) (1, 1))).
  exists (mkUpsample (mkConvTranspose2d C C (4, 4) (2, 2) (1, 1))).
  assert (Hneg : (C <? 0) = false) by (apply Z.ltb_ge; lia).
  split; [ unfold Downsample_init, nn_Conv2d; rewrite Hneg; reflexivity | ].
  split; [ unfold Upsample_init, nn_ConvTranspose2d; rewrite Hneg; reflexivity | ].
  assert (Hdown : forall H W, 0 < H -> 0 < W -> Z.even H = true -> Z.even W = true ->
            Shape.conv2d (mkConv2d C C (3, 3) (2, 2) (1, 1) (1, 1)) [B; C; H; W]
            = Ok [B; C; H / 2; W / 2]).
  { intros H W HH HW EH EW. unfold Shape.conv2d, Shape.conv2d_map.
    cbn [conv_in conv_out conv_kernel conv_stride conv_padding conv_dilation
         fst snd].
    replace (C <? 1) with false by (symmetry; apply Z.ltb_ge; lia).
    rewrite Z.eqb_refl. cbn [negb].
    rewrite !conv_size_half by assumption. reflexivity. }
  assert (Hup : forall H W, 0 < H -> 0 < W ->
            Shape.conv_transpose2d (mkConvTranspose2d C C (4, 4) (2, 2) (1, 1))
              [B; C; H; W]
            = Ok [B; C; 2 * H; 2 * W]).
  { intros H W HH HW. unfold Shape.conv_transpose2d, Shape.conv_transpose2d_map.
    cbn [convt_in convt_out convt_kernel convt_stride convt_padding fst snd].
    replace (C <? 1) with false by (symmetry; apply Z.ltb_ge; lia).
    rewrite Z.eqb_refl. cbn [negb].
    rewrite !conv_transpose_size_double by assumption. reflexivity. }
  split; [exact Hdown | ]. split; [exact Hup | ].
  unfold Downsample_forward, Upsample_forward. cbn [ds_conv us_conv].
  change (@conv2d ShapeTorch) with Shape.conv2d.
  change (@conv_transpose2d ShapeTorch) with Shape.conv_transpose2d.
  rewrite Hdown by (reflexivity || lia). cbn [bind].
  change (64 / 2) with 32.
  rewrite Hup by lia. reflexivity.
Qed.

Lemma Downsample_Upsample_shapes_witness :
  exists d u,
    Downsample_init 32 = Ok d /\
    Upsample_init 32 = Ok u /\
    (forall H W, 0 < H -> 0 < W -> Z.even H = true -> Z.even W = true ->
       Downsample_forward (torch := ShapeTorch) d [1; 32; H; W] None
       = Ok [1; 32; H / 2; W / 2]) /\
    (forall H W, 0 < H -> 0 < W ->
       Upsample_forward (torch := ShapeTorch) u [1; 32; H; W] None
       = Ok [1; 32; 2 * H; 2 * W]) /\
    (x <- Downsample_forward (torch := ShapeTorch) d [1; 32; 64; 64] None ;;
     Upsample_forward u x None) = Ok [1; 32; 64; 64].
Proof.
  apply (Downsample_Upsample_shapes 1 32 None). lia.
Defined.

(** ** What the constructors build *)

Lemma MLP_init_Ok (C fe : Z) (m : MLP) :
  MLP_init C fe = Ok m ->
  m = mkMLP (conv3x3 C C)
        [LLayerNorm (mkLayerNorm C); LLinear (mkLinear C (fe * C)); LReLU;
         LLinear (mkLinear (fe * C) C); LLayerNorm (mkLayerNorm C)]
  /\ 0 <= C /\ 0 <= fe * C.
Proof.
  unfold MLP_init. intros H.
  bind_inv H. bind_inv H. bind_inv H. bind_inv H. bind_inv H.
  apply nn_Conv2d_Ok in E. apply nn_LayerNorm_Ok in E0, E3.
  apply nn_Linear_Ok in E1, E2.
  destruct E as (-> & HC & _), E0 as [-> _], E3 as [-> _],
    E1 as (-> & _ & Hfe), E2 as (-> & _ & _).
  injection H as <-. repeat split; assumption.
Qed.

Lemma MLP_init_nonneg (C : Z) :
  0 <= C ->
  MLP_init C 2
  = Ok (mkMLP (conv3x3 C C)
          [LLayerNorm (mkLayerNorm C); LLinear (mkLinear C (2 * C)); LReLU;
           LLinear (mkLinear (2 * C) C); LLayerNorm (mkLayerNorm C)]).
Proof.
  intros HC. unfold MLP_init.
  rewrite nn_Conv2d_nonneg by lia. cbn [bind].
  rewrite nn_LayerNorm_nonneg by lia. cbn [bind].
  rewrite !nn_Linear_nonneg by lia. cbn [bind]. reflexivity.
Qed.

Lemma ResidualBlock_init_Ok (ci co tc : Z) (p : Q) (isn : bool) (rb : ResidualBlock) :
  ResidualBlock_init ci co tc p isn = Ok rb ->
  rb = mkResidualBlock isn (mkGroupNorm 32 ci) (conv3x3 ci co)
         (mkGroupNorm 32 co) (conv3x3 co co)
         (if negb (ci =? co)
          then ShortcutConv (mkConv2d ci co (1, 1) (1, 1) (0, 0) (1, 1))
          else ShortcutIdentity)
         (if isn then Some (mkLinear tc co) else None)
         (mkDropout p)
  /\ ci mod 32 = 0 /\ 0 <= ci /\ co mod 32 = 0 /\ 0 <= co.
Proof.
  unfold ResidualBlock_init, Normalize. intros H.
  bind_inv H. bind_inv H. bind_inv H. bind_inv H. bind_inv H. bind_inv H.
  apply nn_GroupNorm_Ok in E, E1. apply nn_Conv2d_Ok in E0, E2.
  destruct E as (-> & Hm1 & Hp1), E1 as (-> & Hm2 & Hp2),
    E0 as (-> & _ & _), E2 as (-> & _ & _).
  injection H as <-.
  assert (Hs : v3 = if negb (ci =? co)
                    then ShortcutConv (mkConv2d ci co (1, 1) (1, 1) (0, 0) (1, 1))
                    else ShortcutIdentity).
  { destruct (negb (ci =? co)).
    - bind_inv E3. apply nn_Conv2d_Ok in E. destruct E as (-> & _ & _).
      injection E3 as <-. reflexivity.
    - injection E3 as <-. reflexivity. }
  assert (Ht : v4 = if isn then Some (mkLinear tc co) else None).
  { destruct isn.
    - bind_inv E4. apply nn_Linear_Ok in E. destruct E as (-> & _ & _).
      injection E4 as <-. reflexivity.
    - injection E4 as <-. reflexivity. }
  subst v3 v4. repeat split; assumption.
Qed.

Lemma ResidualBlock_init_is_noise (ci co tc : Z) (p : Q) (isn : bool)
    (rb : ResidualBlock) :
  ResidualBlock_init ci co tc p isn = Ok rb -> rb_is_noise rb = isn.
Proof.
  intros H. apply ResidualBlock_init_Ok in H. destruct H as [-> _]. reflexivity.
Qed.

Lemma DownBlock_init_Ok (ci co tc flag : Z) (isn : bool) (b : DownBlock) :
  DownBlock_init ci co tc flag isn = Ok b ->
  exists res mlp,
    ResidualBlock_init ci co tc (1 # 10) isn = Ok res /\
    MLP_init co 2 = Ok mlp /\
    b = mkDownBlock res (mkStripformer co (Some 0)) mlp flag.
Proof.
  unfold DownBlock_init. intros H. bind_inv H. bind_inv H.
  injection H as <-. exists v, v0. repeat split; assumption.
Qed.

Lemma UpBlock_init_Ok (ci co tc flag2 : Z) (isn : bool) (flag1 : Z) (b : UpBlock) :
  UpBlock_init ci co tc flag2 isn flag1 = Ok b ->
  exists res mlp,
    ResidualBlock_init (ci + co) co tc (1 # 10) isn = Ok res /\
    MLP_init co 2 = Ok mlp /\
    b = mkUpBlock res (mkStripformer co (Some 0)) mlp flag1 flag2.
Proof.
  unfold UpBlock_init. intros H. bind_inv H. bind_inv H.
  injection H as <-. exists v, v0. repeat split; assumption.
Qed.

(** ** The MLP mixer *)

Lemma MLP_forward_steps {torch : Torch} (C : Z) (m : MLP) (x : Tensor) :
  MLP_init C 2 = Ok m -> MLP_forward m x = MLP_steps C x.
Proof.
  intros H. apply MLP_init_Ok in H. destruct H as (-> & _ & _).
  unfold MLP_forward, MLP_steps. cbn [mlp_conv mlp_fc].
  destruct (unpack4 (shape x)) as [[[[b c] h] w] | e]; cbn [bind]; [ | reflexivity].
  destruct (conv2d (conv3x3 C C) x) as [x1 | e]; cbn [bind]; [ | reflexivity].
  destruct (rearrange_to_seq x1) as [x2 | e]; cbn [bind]; [ | reflexivity].
  cbn [Sequential_forward Layer_forward].
  destruct (layer_norm (mkLayerNorm C) x2) as [x3 | e]; cbn [bind]; [ | reflexivity].
  destruct (linear (mkLinear C (2 * C)) x3) as [x4 | e]; cbn [bind]; [ | reflexivity].
  destruct (linear (mkLinear (2 * C) C) (relu x4)) as [x5 | e]; cbn [bind];
    [ | reflexivity].
  destruct (layer_norm (mkLayerNorm C) x5) as [x6 | e]; cbn [bind]; reflexivity.
Qed.

Lemma MLP_steps_shape (B C H W : Z) :
  0 < C -> 0 < H -> 0 < W ->
  MLP_steps (torch := ShapeTorch) C [B; C; H; W] = Ok [B; C; H; W].
Proof.
  intros HC HH HW. unfold MLP_steps. cbn [shape ShapeTorch unpack4 bind].
  change (@conv2d ShapeTorch) with Shape.conv2d.
  unfold conv3x3. rewrite conv2d_same by assumption. cbn [bind].
  cbn [rearrange_to_seq ShapeTorch Shape.rearrange_to_seq bind].
  cbn [layer_norm linear relu ShapeTorch].
  unfold Shape.layer_norm, Shape.linear.
  cbn [rev app ln_normalized_shape lin_in lin_out].
  rewrite !Z.eqb_refl. cbn [bind rev app].
  rewrite !Z.eqb_refl. cbn [bind rev app].
  rewrite !Z.eqb_refl. cbn [bind rev app].
  rewrite !Z.eqb_refl. cbn [bind rev app].
  cbn [rearrange_to_map ShapeTorch Shape.rearrange_to_map].
  rewrite Z.eqb_refl. cbn [bind].
  rewrite conv2d_same by assumption. cbn [bind].
  cbn [add ShapeTorch]. apply Shape_broadcast_refl.
Qed.

(** C8: the MLP mixer built for [C] channels computes the 3x3 convolution,
    the rearrangement to a sequence of per-position channel vectors,
    LayerNorm, Linear to [2 * C] features, ReLU, Linear back to [C],
    LayerNorm, the rearrangement back to a map of the input height and
    width, the same convolution once more, and the sum with its input; on a
    feature map [B, C, H, W] of [C > 0] channels it returns a tensor of the
    same shape. *)
Theorem MLP_forward_pipeline_and_shape (C : Z) (m : MLP) :
  MLP_init C 2 = Ok m ->
  (forall (torch : Torch) (x : Tensor), MLP_forward m x = MLP_steps C x) /\
  (forall B H W, 0 < C -> 0 < H -> 0 < W ->
     MLP_forward (torch := ShapeTorch) m [B; C; H; W] = Ok [B; C; H; W]).
Proof.
  intros Hinit. split.
  - intros torch x. apply MLP_forward_steps. exact Hinit.
  - intros B H W HC HH HW. rewrite (MLP_forward_steps (torch := ShapeTorch) C m [B; C; H; W] Hinit).
    apply MLP_steps_shape; assumption.
Qed.

Lemma MLP_forward_pipeline_and_shape_witness :
  (forall (torch : Torch) (x : Tensor),
     MLP_forward (mkMLP (conv3x3 32 32)
       [LLayerNorm (mkLayerNorm 32); LLinear (mkLinear 32 64); LReLU;
        LLinear (mkLinear 64 32); LLayerNorm (mkLayerNorm 32)]) x
     = MLP_steps 32 x) /\
  (forall B H W, 0 < 32 -> 0 < H -> 0 < W ->
     MLP_forward (torch := ShapeTorch) (mkMLP (conv3x3 32 32)
       [LLayerNorm (mkLayerNorm 32); LLinear (mkLinear 32 64); LReLU;
        LLinear (mkLinear 64 32); LLayerNorm (mkLayerNorm 32)]) [B; 32; H; W]
     = Ok [B; 32; H; W]).
Proof.
  apply (MLP_forward_pipeline_and_shape 32). reflexivity.
Defined.

(** ** DownBlock and UpBlock *)

(** C7: a [DownBlock] runs its [ResidualBlock], then its MLP mixer, and
    applies attention exactly when its [flag] is at least 2.  An [UpBlock]
    built for [ci] and [co] channels has a [ResidualBlock] over [ci + co]
    input channels; it runs the MLP mixer exactly when [flag1] is set, and
    attention exactly when [flag1] is set and [flag2] is at least 2. *)
Theorem DownBlock_UpBlock_forward_stages :
  (forall ci co tc flag isn b,
     DownBlock_init ci co tc flag isn = Ok b ->
     forall (torch : Torch) (x : Tensor) (t : option Tensor),
       (2 <= flag ->
        DownBlock_forward b x t =
          (x <- ResidualBlock_forward (db_res b) x t ;;
           x <- MLP_forward (db_mlp b) x ;;
           stripformer (db_att b) x)) /\
       (flag < 2 ->
        DownBlock_forward b x t =
          (x <- ResidualBlock_forward (db_res b) x t ;;
           MLP_forward (db_mlp b) x))) /\
  (forall ci co tc flag2 isn flag1 b,
     UpBlock_init ci co tc flag2 isn flag1 = Ok b ->
     gn_num_channels (rb_norm1 (ub_res b)) = ci + co /\
     conv_in (rb_conv1 (ub_res b)) = ci + co /\
     conv_out (rb_conv1 (ub_res b)) = co /\
     forall (torch : Torch) (x : Tensor) (t : option Tensor),
       (flag1 = 0 ->
        UpBlock_forward b x t = ResidualBlock_forward (ub_res b) x t) /\
       (flag1 <> 0 -> flag2 < 2 ->
        UpBlock_forward b x t =
          (x <- ResidualBlock_forward (ub_res b) x t ;;
           MLP_forward (ub_mlp b) x)) /\
       (flag1 <> 0 -> 2 <= flag2 ->
        UpBlock_forward b x t =
          (x <- ResidualBlock_forward (ub_res b) x t ;;
           x <- MLP_forward (ub_mlp b) x ;;
           stripformer (ub_att b) x))).
Proof.
  split.
  - intros ci co tc flag isn b Hinit torch x t.
    apply DownBlock_init_Ok in Hinit. destruct Hinit as (res & mlp & _ & _ & ->).
    unfold DownBlock_forward. cbn [db_res db_mlp db_att db_flag].
    split; intros Hf.
    + replace (flag >=? 2) with true by (symmetry; apply Z.geb_le; lia).
      reflexivity.
    + replace (flag >=? 2) with false
        by (symmetry; rewrite Z.geb_leb; apply Z.leb_gt; lia).
      destruct (ResidualBlock_forward res x t) as [x1 | e]; cbn [bind];
        [ | reflexivity].
      destruct (MLP_forward mlp x1); reflexivity.
  - intros ci co tc flag2 isn flag1 b Hinit.
    apply UpBlock_init_Ok in Hinit. destruct Hinit as (res & mlp & Hres & _ & ->).
    apply ResidualBlock_init_Ok in Hres. destruct Hres as (-> & _).
    cbn [ub_res rb_norm1 rb_conv1 gn_num_channels conv_in conv_out conv3x3].
    repeat (split; [reflexivity | ]).
    intros torch x t. unfold UpBlock_forward.
    cbn [ub_res ub_mlp ub_att ub_flag1 ub_flag2].
    set (res := mkResidualBlock _ _ _ _ _ _ _ _).
    split; [ | split].
    + intros ->. cbn [Z.eqb negb andb].
      destruct (ResidualBlock_forward res x t); reflexivity.
    + intros H1 H2. apply Z.eqb_neq in H1. rewrite H1. cbn [negb andb].
      replace (flag2 >=? 2) with false
        by (symmetry; rewrite Z.geb_leb; apply Z.leb_gt; lia).
      destruct (ResidualBlock_forward res x t) as [x1 | e]; cbn [bind];
        [ | reflexivity].
      destruct (MLP_forward mlp x1); reflexivity.
    + intros H1 H2. apply Z.eqb_neq in H1. rewrite H1. cbn [negb andb].
      replace (flag2 >=? 2) with true by (symmetry; apply Z.geb_le; lia).
      reflexivity.
Qed.

Lemma DownBlock_UpBlock_forward_stages_witness :
  (exists b, DownBlock_init 64 128 128 3 true = Ok b /\
     DownBlock_forward (torch := ShapeTorch) b [1; 64; 8; 8] (Some [1; 128]) =
       (x <- ResidualBlock_forward (db_res b) [1; 64; 8; 8] (Some [1; 128]) ;;
        x <- MLP_forward (db_mlp b) x ;;
        stripformer (db_att b) x)) /\
  (exists b, UpBlock_init 64 128 128 3 true 1 = Ok b /\
     conv_in (rb_conv1 (ub_res b)) = 64 + 128).
Proof.
  destruct DownBlock_UpBlock_forward_stages as [Hdown Hup].
  split.
  - eexists. split; [vm_compute; reflexivity | ].
    refine (proj1 (Hdown 64 128 128 3 true _ _ ShapeTorch _ _) _).
    + vm_compute. reflexivity.
    + lia.
  - eexists. split; [vm_compute; reflexivity | ].
    refine (proj1 (proj2 (Hup 64 128 128 3 true 1 _ _))).
    vm_compute. reflexivity.
Defined.

(** ** Conditioning *)

Lemma ResidualBlock_forward_no_noise {torch : Torch} (rb : ResidualBlock)
    (x : Tensor) (t t' : option Tensor) :
  rb_is_noise rb = false ->
  ResidualBlock_forward rb x t = ResidualBlock_forward rb x t'.
Proof.
  intros H. unfold ResidualBlock_forward. rewrite H. reflexivity.
Qed.

Lemma MiddleBlock_forward_no_noise {torch : Torch} (mb : MiddleBlock)
    (x : Tensor) (t t' : option Tensor) :
  rb_is_noise (mb_res1 mb) = false ->
  rb_is_noise (mb_res2 mb) = false ->
  MiddleBlock_forward mb x t = MiddleBlock_forward mb x t'.
Proof.
  intros H1 H2. unfold MiddleBlock_forward.
  rewrite (ResidualBlock_forward_no_noise _ x t t' H1).
  destruct (ResidualBlock_forward (mb_res1 mb) x t') as [x1 | e]; cbn [bind];
    [ | reflexivity].
  destruct (conv2d (mb_dia1 mb) x1) as [x2 | e]; cbn [bind]; [ | reflexivity].
  destruct (conv2d (mb_dia2 mb) x2) as [x3 | e]; cbn [bind]; [ | reflexivity].
  destruct (stripformer (mb_sf mb) x3) as [x4 | e]; cbn [bind]; [ | reflexivity].
  destruct (conv2d (mb_dia3 mb) x4) as [x5 | e]; cbn [bind]; [ | reflexivity].
  destruct (conv2d (mb_dia4 mb) x5) as [x6 | e]; cbn [bind]; [ | reflexivity].
  apply ResidualBlock_forward_no_noise. exact H2.
Qed.

Lemma DenoiserUNet_init_Ok (n : Z) (ch : list Z) (nb : Z) (noise : bool)
    (ic oc : Z) (m : DenoiserUNet) :
  DenoiserUNet_init ic oc n ch nb noise = Ok m ->
  is_noise m = noise /\
  (time_emb m = None <-> noise = false) /\
  exists ci co ci',
    down_levels n ch nb noise (seq 0 (length ch)) n n [] = Ok (ci, co, down m) /\
    MiddleBlock_init co (n * 4) false = Ok (middle m) /\
    up_levels n ch nb noise (rev (seq 0 (length ch))) co [] = Ok (ci', up m).
Proof.
  unfold DenoiserUNet_init. intros H.
  bind_inv H. bind_inv H. bind_inv H. destruct v1 as [[ci co] dn].
  bind_inv H. bind_inv H. destruct v2 as [ci' u]. bind_inv H.
  injection H as <-. cbn [is_noise time_emb down middle up].
  split; [reflexivity | ]. split.
  - destruct noise.
    + bind_inv E0. injection E0 as <-. split; discriminate.
    + injection E0 as <-. split; reflexivity.
  - exists ci, co, ci'. repeat split; assumption.
Qed.

(** ** MiddleBlock *)

(** C5: [MiddleBlock.forward] runs, in this order, a [ResidualBlock], the
    convolutions of dilation 2 and 4, attention, the convolutions of
    dilation 8 and 16, and a second [ResidualBlock]; the middle block of a
    [DenoiserUNet] is built with [is_noise=False] whatever the model's own
    flag, so both residual blocks run without the conditioning tensor that
    [forward] hands to the block. *)
Theorem MiddleBlock_pipeline_unconditioned (n : Z) (ch : list Z) (nb : Z)
    (noise : bool) (ic oc : Z) (m : DenoiserUNet) :
  DenoiserUNet_init ic oc n ch nb noise = Ok m ->
  rb_is_noise (mb_res1 (middle m)) = false /\
  rb_is_noise (mb_res2 (middle m)) = false /\
  rb_time_emb (mb_res1 (middle m)) = None /\
  rb_time_emb (mb_res2 (middle m)) = None /\
  map conv_dilation
    [mb_dia1 (middle m); mb_dia2 (middle m); mb_dia3 (middle m); mb_dia4 (middle m)]
  = [(2, 2); (4, 4); (8, 8); (16, 16)] /\
  forall (torch : Torch) (x : Tensor) (t : option Tensor),
    MiddleBlock_forward (middle m) x t =
      (x <- ResidualBlock_forward (mb_res1 (middle m)) x None ;;
       x <- conv2d (mb_dia1 (middle m)) x ;;
       x <- conv2d (mb_dia2 (middle m)) x ;;
       x <- stripformer (mb_sf (middle m)) x ;;
       x <- conv2d (mb_dia3 (middle m)) x ;;
       x <- conv2d (mb_dia4 (middle m)) x ;;
       ResidualBlock_forward (mb_res2 (middle m)) x None).
Proof.
  intros Hinit. apply DenoiserUNet_init_Ok in Hinit.
  destruct Hinit as (_ & _ & ci & co & ci' & _ & Hmid & _).
  apply MiddleBlock_init_Ok in Hmid. destruct Hmid as (r1 & r2 & H1 & H2 & ->).
  apply ResidualBlock_init_Ok in H1, H2. destruct H1 as [-> _], H2 as [-> _].
  cbn [mb_res1 mb_res2 mb_dia1 mb_dia2 mb_dia3 mb_dia4 mb_sf rb_is_noise rb_time_emb].
  repeat (split; [reflexivity | ]).
  intros torch x t.
  apply (MiddleBlock_forward_no_noise
           (mkMiddleBlock _ _ _ _ _ _ _) x t None); reflexivity.
Qed.

Lemma MiddleBlock_pipeline_unconditioned_witness :
  exists m,
    DenoiserUNet_init 2 1 32 [1; 2; 2; 4] 1 true = Ok m /\
    is_noise m = true /\
    rb_is_noise (mb_res1 (middle m)) = false /\
    rb_is_noise (mb_res2 (middle m)) = false.
Proof.
  eexists. split; [vm_compute; reflexivity | ]. split; [reflexivity | ].
  match goal with
  | |- rb_is_noise (mb_res1 (middle ?m)) = _ /\ _ =>
      assert (H : DenoiserUNet_init 2 1 32 [1; 2; 2; 4] 1 true = Ok m)
        by (vm_compute; reflexivity);
      apply (MiddleBlock_pipeline_unconditioned 32 [1; 2; 2; 4] 1 true 2 1 m) in H
  end.
  split; [exact (proj1 H) | exact (proj1 (proj2 H))].
Defined.

Lemma forward_no_noise {torch : Torch} (m : DenoiserUNet) (x : Tensor)
    (t : option Tensor) :
  is_noise m = false -> forward m x t = forward_unconditioned m x.
Proof.
  intros H. unfold forward, forward_skips, forward_unconditioned.
  rewrite H. cbn [bind].
  destruct (conv2d (image_proj m) x) as [x1 | e]; cbn [bind]; [ | reflexivity].
  destruct (down_loop (down m) x1 None [x1]) as [[x2 h2] | e]; cbn [bind];
    [ | reflexivity].
  destruct (MiddleBlock_forward (middle m) x2 None) as [x3 | e]; cbn [bind];
    [ | reflexivity].
  destruct (up_loop (up m) x3 None h2) as [[x4 h4] | e]; cbn [bind];
    [ | reflexivity].
  destruct (Swish_forward x4) as [a | e]; cbn [bind]; [ | reflexivity].
  destruct (conv2d (final m) a); reflexivity.
Qed.

(** C10: a [DenoiserUNet] constructed with [is_noise=False] returns (or
    raises) the same for any two timesteps: [forward] replaces [t] by [None]
    before the first block runs, and a [ResidualBlock] built with
    [is_noise=False] does not read its conditioning argument. *)
Theorem forward_independent_of_timestep (n : Z) (ch : list Z) (nb ic oc : Z)
    (m : DenoiserUNet) :
  DenoiserUNet_init ic oc n ch nb false = Ok m ->
  (forall (torch : Torch) (x : Tensor) (t1 t2 : option Tensor),
     forward m x t1 = forward m x t2) /\
  (forall (torch : Torch) (x : Tensor) (t : option Tensor),
     forward m x t = forward_unconditioned m x) /\
  (forall ci co tc p rb,
     ResidualBlock_init ci co tc p false = Ok rb ->
     forall (torch : Torch) (x : Tensor) (t t' : option Tensor),
       ResidualBlock_forward rb x t = ResidualBlock_forward rb x t').
Proof.
  intros Hinit. apply DenoiserUNet_init_Ok in Hinit. destruct Hinit as (Hn & _).
  split; [ | split].
  - intros torch x t1 t2. rewrite !forward_no_noise by exact Hn. reflexivity.
  - intros torch x t. apply forward_no_noise. exact Hn.
  - intros ci co tc p rb Hrb torch x t t'.
    apply ResidualBlock_forward_no_noise.
    apply (ResidualBlock_init_is_noise _ _ _ _ _ _ Hrb).
Qed.

Lemma forward_independent_of_timestep_witness :
  exists m,
    DenoiserUNet_init 2 1 32 [1; 2; 2; 4] 1 false = Ok m /\
    forward (torch := ShapeTorch) m [1; 2; 64; 64] (Some [1])
    = forward (torch := ShapeTorch) m [1; 2; 64; 64] (Some [7]) /\
    forward (torch := ShapeTorch) m [1; 2; 64; 64] (Some [1]) = Ok [1; 1; 64; 64].
Proof.
  eexists. split; [vm_compute; reflexivity | ].
  split; [ | vm_compute; reflexivity].
  match goal with
  | |- forward ?m _ _ = _ =>
      assert (H : DenoiserUNet_init 2 1 32 [1; 2; 2; 4] 1 false = Ok m)
        by (vm_compute; reflexivity);
      apply (forward_independent_of_timestep 32 [1; 2; 2; 4] 1 2 1 m) in H
  end.
  apply (proj1 H).
Defined.

(** C3, as the code has it: nothing is raised on account of the timestep.
    A model with conditioning disabled discards the timestep it is given,
    behaving as if called with [None]; a call without a timestep takes the
    default of the signature, [torch.tensor([0])], so a model with
    conditioning enabled embeds that tensor. *)
Theorem forward_timestep_discarded_or_defaulted (torch : Torch)
    (m : DenoiserUNet) (x : Tensor) :
  (is_noise m = false ->
   forall t : Tensor, forward m x (Some t) = forward m x None) /\
  (is_noise m = true ->
   forall te, time_emb m = Some te ->
   forward_default m x =
     (e <- TimeEmbedding_forward te (Some (tensor_of_ints [0])) ;;
      x <- conv2d (image_proj m) x ;;
      '(x, h) <- down_loop (down m) x (Some e) [x] ;;
      x <- MiddleBlock_forward (middle m) x (Some e) ;;
      '(x, h) <- up_loop (up m) x (Some e) h ;;
      a <- Swish_forward x ;;
      conv2d (final m) a)).
Proof.
  split.
  - intros H t. rewrite !forward_no_noise by exact H. reflexivity.
  - intros H te Hte. unfold forward_default, forward, forward_skips.
    rewrite H, Hte. cbn [getattr bind].
    destruct (TimeEmbedding_forward te (Some (tensor_of_ints [0]))) as [e | err];
      cbn [bind]; [ | reflexivity].
    destruct (conv2d (image_proj m) x) as [x1 | err]; cbn [bind]; [ | reflexivity].
    destruct (down_loop (down m) x1 (Some e) [x1]) as [[x2 h2] | err]; cbn [bind];
      [ | reflexivity].
    destruct (MiddleBlock_forward (middle m) x2 (Some e)) as [x3 | err]; cbn [bind];
      [ | reflexivity].
    destruct (up_loop (up m) x3 (Some e) h2) as [[x4 h4] | err]; cbn [bind];
      [ | reflexivity].
    destruct (Swish_forward x4) as [a | err]; cbn [bind]; [ | reflexivity].
    destruct (conv2d (final m) a); reflexivity.
Qed.

Lemma forward_timestep_discarded_or_defaulted_witness :
  exists m,
    DenoiserUNet_init 2 1 32 [1; 2; 2; 4] 1 false = Ok m /\
    is_noise m = false /\
    forward (torch := ShapeTorch) m [1; 2; 64; 64] (Some [1])
    = forward (torch := ShapeTorch) m [1; 2; 64; 64] None.
Proof.
  eexists. split; [vm_compute; reflexivity | ]. split; [reflexivity | ].
  apply (proj1 (forward_timestep_discarded_or_defaulted ShapeTorch _ [1; 2; 64; 64])).
  reflexivity.
Defined.

(** C3, as stated, fails on both halves: a model with conditioning disabled
    called with the timestep [[5]] returns a [1, 1, 64, 64] tensor, and a
    model with conditioning enabled called without a timestep returns one
    too. *)
Lemma forward_mismatched_timestep_returns :
  (m <- DenoiserUNet_init 2 1 32 [1; 2; 2; 4] 1 false ;;
   forward (torch := ShapeTorch) m [1; 2; 64; 64] (Some (tensor_of_ints [5])))
  = Ok [1; 1; 64; 64] /\
  (m <- DenoiserUNet_init 2 1 32 [1; 2; 2; 4] 1 true ;;
   forward_default (torch := ShapeTorch) m [1; 2; 64; 64])
  = Ok [1; 1; 64; 64].
Proof.
  split; vm_compute; reflexivity.
Qed.

(** ** The skip stack *)

Lemma consumers_app (a b : list Module_) :
  consumers (a ++ b) = (consumers a + consumers b)%nat.
Proof.
  unfold consumers. rewrite filter_app, length_app. reflexivity.
Qed.

Section InitCounts.

Variables (n : Z) (ch : list Z) (nb : Z) (noise : bool).

Lemma down_blocks_length (k i : nat) (ci co : Z) (dn : list Module_)
    (ci' : Z) (dn' : list Module_) :
  down_blocks n noise k i ci co dn = Ok (ci', dn') ->
  length dn' = (length dn + k)%nat.
Proof.
  revert ci dn. induction k as [| k IH]; intros ci dn H; simpl in H.
  - injection H as _ <-. lia.
  - bind_inv H. apply IH in H. rewrite H, length_app. simpl. lia.
Qed.

Lemma up_blocks_consumers (k i : nat) (ci co : Z) (u u' : list Module_) :
  up_blocks n noise k i ci co u = Ok u' ->
  consumers u' = (consumers u + k)%nat.
Proof.
  revert u. induction k as [| k IH]; intros u H; simpl in H.
  - injection H as <-. lia.
  - bind_inv H. apply IH in H. rewrite H, consumers_app.
    change (consumers [MUpBlock v]) with 1%nat. lia.
Qed.

Lemma down_levels_length (levels : list nat) (ci co : Z) (dn : list Module_)
    (ci' co' : Z) (dn' : list Module_) :
  down_levels n ch nb noise levels ci co dn = Ok (ci', co', dn') ->
  length dn'
  = (length dn + length levels * Z.to_nat nb + length (downsampled (length ch) levels))%nat.
Proof.
  revert ci co dn. induction levels as [| i levels IH]; intros ci co dn H;
    simpl in H.
  - injection H as _ _ <-. simpl. lia.
  - bind_inv H. bind_inv H. destruct v0 as [ci1 dn1]. bind_inv H.
    apply down_blocks_length in E0. apply IH in H. rewrite H. clear H IH.
    unfold downsampled. simpl filter.
    destruct (Z.of_nat i <? Z.of_nat (length ch) - 1).
    + bind_inv E1. injection E1 as <-. rewrite length_app, E0. simpl. lia.
    + injection E1 as <-. rewrite E0. simpl. lia.
Qed.

Lemma up_levels_consumers (levels : list nat) (ci : Z) (u : list Module_)
    (ci' : Z) (u' : list Module_) :
  up_levels n ch nb noise levels ci u = Ok (ci', u') ->
  consumers u' = (consumers u + length levels * (Z.to_nat nb + 1))%nat.
Proof.
  revert ci u. induction levels as [| i levels IH]; intros ci u H; simpl in H.
  - injection H as _ <-. simpl. lia.
  - bind_inv H. bind_inv H. bind_inv H. bind_inv H. bind_inv H.
    apply up_blocks_consumers in E0. apply IH in H. rewrite H. clear H IH.
    assert (Hv : consumers v3 = (consumers v0 + 1)%nat).
    { destruct (0 <? i)%nat.
      - bind_inv E3. injection E3 as <-. rewrite !consumers_app.
        change (consumers [MUpBlock v2]) with 1%nat.
        change (consumers [MUpsample v4]) with 0%nat. lia.
      - injection E3 as <-. rewrite consumers_app.
        change (consumers [MUpBlock v2]) with 1%nat. lia. }
    rewrite Hv, E0. simpl. lia.
Qed.

Lemma downsampled_all_levels :
  length (downsampled (length ch) (seq 0 (length ch))) = (length ch - 1)%nat.
Proof.
  unfold downsampled. generalize (length ch) as k. intros k.
  destruct k as [| k]; [reflexivity | ].
  rewrite seq_S, filter_app, length_app. cbn [Nat.add filter].
  replace (Z.of_nat k <? Z.of_nat (S k) - 1) with false
    by (symmetry; apply Z.ltb_ge; lia).
  cbn [length]. rewrite Nat.add_0_r.
  replace (S k - 1)%nat with k by lia.
  rewrite forallb_filter_id; [apply length_seq | ].
  apply forallb_forall. intros i Hi.
  apply in_seq in Hi. apply Z.ltb_lt. lia.
Qed.

End InitCounts.

Section Loops.

Context {torch : Torch}.

Lemma down_loop_length (ms : list Module_) (x : Tensor) (t : option Tensor)
    (h : list Tensor) (x' : Tensor) (h' : list Tensor) :
  down_loop ms x t h = Ok (x', h') ->
  length h' = (length h + length ms)%nat.
Proof.
  revert x h. induction ms as [| m ms IH]; intros x h H; simpl in H.
  - injection H as _ <-. simpl. lia.
  - bind_inv H. apply IH in H. rewrite H. simpl. lia.
Qed.

Lemma up_loop_length (ms : list Module_) (x : Tensor) (t : option Tensor)
    (h : list Tensor) (x' : Tensor) (h' : list Tensor) :
  up_loop ms x t h = Ok (x', h') ->
  length h = (length h' + consumers ms)%nat.
Proof.
  revert x h. induction ms as [| m ms IH]; intros x h H; simpl in H.
  - injection H as _ <-. unfold consumers. simpl. lia.
  - unfold consumers. simpl filter.
    destruct (isinstance_Upsample m); simpl negb; cbv iota.
    + bind_inv H. apply IH in H. exact H.
    + bind_inv H. destruct v as [s h1]. bind_inv H. bind_inv H.
      apply IH in H. destruct h as [| s0 h0]; simpl in E; [discriminate | ].
      injection E as _ <-. simpl. unfold consumers in H. lia.
Qed.

End Loops.

Lemma DenoiserUNet_init_counts (n : Z) (ch : list Z) (nb : Z) (noise : bool)
    (ic oc : Z) (m : DenoiserUNet) :
  DenoiserUNet_init ic oc n ch nb noise = Ok m ->
  length (down m) = (length ch * Z.to_nat nb + (length ch - 1))%nat /\
  pops m = (length ch * (Z.to_nat nb + 1))%nat.
Proof.
  intros H. apply DenoiserUNet_init_Ok in H.
  destruct H as (_ & _ & ci & co & ci' & Hdown & _ & Hup).
  apply down_levels_length in Hdown. apply up_levels_consumers in Hup.
  rewrite downsampled_all_levels, length_seq in Hdown.
  rewrite length_rev, length_seq in Hup.
  unfold pops. split; [exact Hdown | exact Hup].
Qed.

(** C2, as the code has it: for a model with at least one resolution level,
    the pushes (one after the image projection, one per module of the down
    stack, [Downsample]s included) and the pops (one per module of the up
    stack that is not an [Upsample]) both number
    [n_resolutions * (n_blocks + 1)], a negative [n_blocks] counting as 0
    since [range(n_blocks)] is then empty; the down loop leaves that many
    skips on the stack, the up loop takes one off per such module, and
    whenever the up loop of a [forward] call completes, the stack is
    empty. *)
Theorem skip_stack_pushes_match_pops (n : Z) (ch : list Z) (nb : Z)
    (noise : bool) (ic oc : Z) (m : DenoiserUNet) :
  ch <> [] ->
  DenoiserUNet_init ic oc n ch nb noise = Ok m ->
  Z.of_nat (pushes m) = Z.of_nat (length ch) * (Z.max nb 0 + 1) /\
  Z.of_nat (pops m) = Z.of_nat (length ch) * (Z.max nb 0 + 1) /\
  forall (torch : Torch),
    (forall x0 t x h,
       down_loop (down m) x0 t [x0] = Ok (x, h) -> length h = pushes m) /\
    (forall x t h x' h',
       up_loop (up m) x t h = Ok (x', h') -> length h = (length h' + pops m)%nat) /\
    (forall x t y h, forward_skips m x t = Ok (y, h) -> h = []).
Proof.
  intros Hch Hinit.
  destruct (DenoiserUNet_init_counts _ _ _ _ _ _ _ Hinit) as [Hdown Hup].
  assert (Hnb : Z.max nb 0 = Z.of_nat (Z.to_nat nb)) by lia.
  rewrite Hnb. clear Hnb. set (k := Z.to_nat nb) in *.
  assert (Hpush : pushes m = (length ch * (k + 1))%nat).
  { unfold pushes. rewrite Hdown. destruct ch as [| c ch']; [congruence | ].
    simpl length. lia. }
  split; [rewrite Hpush; lia | ]. split; [rewrite Hup; lia | ].
  intros torch. split; [ | split].
  - intros x0 t x h H. apply down_loop_length in H. rewrite H.
    unfold pushes. simpl. lia.
  - intros x t h x' h' H. apply up_loop_length in H. exact H.
  - intros x t y h H. unfold forward_skips in H.
    bind_inv H. bind_inv H. bind_inv H. destruct v1 as [x2 h2].
    bind_inv H. bind_inv H. destruct v2 as [x4 h4].
    bind_inv H. bind_inv H. injection H as _ <-.
    apply down_loop_length in E1. apply up_loop_length in E3.
    fold (pops m) in E3. simpl in E1.
    assert (Hlen : length h4 = 0%nat) by (unfold pushes in Hpush; lia).
    destruct h4; [reflexivity | discriminate].
Qed.

Lemma skip_stack_pushes_match_pops_witness :
  (exists m y,
     DenoiserUNet_init 2 1 32 [1; 2; 2; 4] 1 true = Ok m /\
     Z.of_nat (pushes m) = 8 /\
     Z.of_nat (pops m) = 8 /\
     forward_skips (torch := ShapeTorch) m [1; 2; 64; 64] (Some [1]) = Ok (y, [])) /\
  (exists m,
     DenoiserUNet_init 2 1 32 [1; 1] (-1) false = Ok m /\
     Z.of_nat (pushes m) = 2 /\
     Z.of_nat (pops m) = 2).
Proof.
  split.
  - eexists. eexists.
    match goal with
    | |- ?I = Ok ?m /\ _ =>
        assert (Hinit : I = Ok m) by (vm_compute; reflexivity)
    end.
    split; [exact Hinit | ].
    pose proof (skip_stack_pushes_match_pops 32 [1; 2; 2; 4] 1 true 2 1 _
                  ltac:(discriminate) Hinit) as (Hpush & Hpop & _).
    split; [exact Hpush | ]. split; [exact Hpop | ].
    vm_compute. reflexivity.
  - eexists.
    match goal with
    | |- ?I = Ok ?m /\ _ =>
        assert (Hinit : I = Ok m) by (vm_compute; reflexivity)
    end.
    split; [exact Hinit | ].
    pose proof (skip_stack_pushes_match_pops 32 [1; 1] (-1) false 2 1 _
                  ltac:(discriminate) Hinit) as (Hpush & Hpop & _).
    split; [exact Hpush | exact Hpop].
Defined.

(** C2, as stated, fails for a configuration without resolution levels: the
    constructor accepts an empty multiplier list, [forward] then pushes the
    image projection and pops nothing, and the up loop completes with that
    skip still on the stack, while [n_resolutions * (n_blocks + 1)] is 0. *)
Lemma skip_stack_no_levels :
  (m <- DenoiserUNet_init 2 1 32 [] 2 false ;;
   '(_, h) <- forward_skips (torch := ShapeTorch) m [1; 2; 64; 64] None ;;
   Ok (pushes m, pops m, h))
  = Ok (1%nat, 0%nat, [[1; 32; 64; 64]]) /\
  (length (@nil Z) * (2 + 1))%nat = 0%nat.
Proof.
  split; [vm_compute; reflexivity | reflexivity].
Qed.

(** ** The default configuration *)

(** The sixth module of the up stack of the default model is the second
    [UpBlock] of resolution level 2.  It was built from the [in_channels]
    left by level 3 (128) and so expects [128 + 64] input channels, but it
    runs on the 64-channel output of the block before it concatenated with a
    64-channel skip. *)
Lemma up_stack_second_block_mismatch :
  exists m b e x3 h3 h5,
    DenoiserUNet_init 2 1 32 [1; 2; 2; 4] 2 true = Ok m /\
    nth_error (up m) 5 = Some (MUpBlock b) /\
    gn_num_channels (rb_norm1 (ub_res b)) = 192 /\
    conv_in (rb_conv1 (ub_res b)) = 192 /\
    (x <- conv2d (Torch := ShapeTorch) (image_proj m) [1; 2; 64; 64] ;;
     '(x, h) <- down_loop (down m) x (Some e) [x] ;;
     x <- MiddleBlock_forward (middle m) x (Some e) ;;
     Ok (x, h)) = Ok (x3, h3) /\
    up_loop (firstn 5 (up m)) x3 (Some e) h3
    = Ok ([1; 64; 16; 16], [1; 64; 16; 16] :: h5) /\
    cat1 (Torch := ShapeTorch) [1; 64; 16; 16] [1; 64; 16; 16] = Ok [1; 128; 16; 16] /\
    UpBlock_forward (torch := ShapeTorch) b [1; 128; 16; 16] (Some e)
    = Raise RuntimeError.
Proof.
  eexists. eexists. exists [1; 128]. eexists. eexists. eexists.
  split; [vm_compute; reflexivity | ].
  split; [vm_compute; reflexivity | ].
  split; [reflexivity | ]. split; [reflexivity | ].
  split; [vm_compute; reflexivity | ].
  split; [vm_compute; reflexivity | ].
  split; vm_compute; reflexivity.
Qed.

(** C1 at the default configuration of the constructor ([n_channels=32],
    [ch_mults=(1, 2, 2, 4)], [n_blocks=2], conditioning enabled): the model
    is constructed, and [forward] on an input of shape [1, 2, 64, 64] with
    the timestep [[5]] raises instead of returning a [1, 1, 64, 64]
    tensor. *)
Theorem forward_default_configuration_raises :
  exists m,
    DenoiserUNet_init 2 1 32 [1; 2; 2; 4] 2 true = Ok m /\
    forward (torch := ShapeTorch) m [1; 2; 64; 64] (Some (tensor_of_ints [5]))
    = Raise RuntimeError.
Proof.
  eexists. split; [vm_compute; reflexivity | vm_compute; reflexivity].
Qed.

(** With one block per resolution the same call returns a tensor of the
    input's spatial size: the first [UpBlock] of a level is the only one
    whose input width the constructor gets right when multipliers differ. *)
Lemma forward_one_block_returns :
  exists m,
    DenoiserUNet_init 2 1 32 [1; 2; 2; 4] 1 true = Ok m /\
    forward (torch := ShapeTorch) m [1; 2; 64; 64] (Some (tensor_of_ints [5]))
    = Ok [1; 1; 64; 64].
Proof.
  eexists. split; [vm_compute; reflexivity | vm_compute; reflexivity].
Qed.

(** With two blocks per resolution and equal widths at all levels the
    mismatch cannot show: every [UpBlock] then sees [64] channels. *)
Lemma forward_equal_widths_returns :
  exists m,
    DenoiserUNet_init 2 1 32 [1; 1; 1; 1] 2 true = Ok m /\
    forward (torch := ShapeTorch) m [1; 2; 64; 64] (Some (tensor_of_ints [5]))
    = Ok [1; 1; 64; 64].
Proof.
  eexists. split; [vm_compute; reflexivity | vm_compute; reflexivity].
Qed.

(** * Shapes through the blocks *)

(** ** Primitive shape rules *)

Lemma Swish_forward_shape (x : list Z) :
  Swish_forward (torch := ShapeTorch) x = Ok x.
Proof.
  unfold Swish_forward. cbn [mul sigmoid ShapeTorch]. apply Shape_broadcast_refl.
Qed.

Lemma conv2d_3x3_shape (ci co d B H W : Z) :
  0 < co -> 0 < H -> 0 < W ->
  Shape.conv2d (mkConv2d ci co (3, 3) (1, 1) (d, d) (d, d)) [B; ci; H; W]
  = Ok [B; co; H; W].
Proof.
  intros Hco HH HW. unfold Shape.conv2d, Shape.conv2d_map.
  cbn [conv_in conv_out conv_kernel conv_stride conv_padding conv_dilation fst snd].
  replace (co <? 1) with false by (symmetry; apply Z.ltb_ge; lia).
  rewrite Z.eqb_refl. cbn [negb].
  rewrite !conv_size_same by assumption. reflexivity.
Qed.

Lemma conv_size_1x1 (i : Z) : 0 < i -> Shape.conv_size i 1 1 0 1 = Ok i.
Proof.
  intros Hi. unfold Shape.conv_size.
  replace (i + 2 * 0 <? 1 * (1 - 1) + 1) with false
    by (symmetry; apply Z.ltb_ge; lia).
  f_equal. rewrite Z.div_1_r. lia.
Qed.

Lemma conv2d_1x1_shape (ci co B H W : Z) :
  0 < co -> 0 < H -> 0 < W ->
  Shape.conv2d (mkConv2d ci co (1, 1) (1, 1) (0, 0) (1, 1)) [B; ci; H; W]
  = Ok [B; co; H; W].
Proof.
  intros Hco HH HW. unfold Shape.conv2d, Shape.conv2d_map.
  cbn [conv_in conv_out conv_kernel conv_stride conv_padding conv_dilation fst snd].
  replace (co <? 1) with false by (symmetry; apply Z.ltb_ge; lia).
  rewrite Z.eqb_refl. cbn [negb].
  rewrite !conv_size_1x1 by assumption. reflexivity.
Qed.

Lemma broadcast_rev_same (x : Z) (a b r : list Z) :
  Shape.broadcast_rev a b = Ok r ->
  Shape.broadcast_rev (x :: a) (x :: b) = Ok (x :: r).
Proof.
  intros H. cbn [Shape.broadcast_rev]. rewrite H. cbn [bind].
  rewrite Z.eqb_refl. reflexivity.
Qed.

Lemma broadcast_rev_one_r (x : Z) (a b r : list Z) :
  Shape.broadcast_rev a b = Ok r ->
  Shape.broadcast_rev (x :: a) (1 :: b) = Ok (x :: r).
Proof.
  intros H. cbn [Shape.broadcast_rev]. rewrite H. cbn [bind].
  destruct (x =? 1) eqn:E; [reflexivity | ].
  change (1 =? 1) with true. reflexivity.
Qed.

(** The conditioning term [[Bt, co, 1, 1]] is added in place to a
    [[B, co, H, W]] map when its batch size is [B] or 1. *)
Lemma broadcast_into_conditioning (B Bt co H W : Z) :
  Bt = B \/ Bt = 1 ->
  Shape.broadcast_into [B; co; H; W] [Bt; co; 1; 1] = Ok [B; co; H; W].
Proof.
  intros HB. unfold Shape.broadcast_into, Shape.broadcast. cbn [rev app].
  assert (Hr : Shape.broadcast_rev [W; H; co; B] [1; 1; co; Bt] = Ok [W; H; co; B]).
  { apply broadcast_rev_one_r, broadcast_rev_one_r, broadcast_rev_same.
    destruct HB as [-> | ->].
    - apply broadcast_rev_same. reflexivity.
    - apply broadcast_rev_one_r. reflexivity. }
  rewrite Hr. cbn [bind rev app]. rewrite Shape_eqb_refl. reflexivity.
Qed.

Lemma linear_shape_2d (i o B : Z) :
  Shape.linear (mkLinear i o) [B; i] = Ok [B; o].
Proof.
  unfold Shape.linear. cbn [rev app lin_in lin_out].
  rewrite Z.eqb_refl. reflexivity.
Qed.

(** Rewrites the operations of [ShapeTorch] to the shape rules they are. *)
Ltac shape_ops :=
  try change (@conv2d ShapeTorch) with Shape.conv2d;
  try change (@conv_transpose2d ShapeTorch) with Shape.conv_transpose2d;
  try change (@group_norm ShapeTorch) with Shape.group_norm;
  try change (@layer_norm ShapeTorch) with Shape.layer_norm;
  try change (@linear ShapeTorch) with Shape.linear;
  try change (@stripformer ShapeTorch) with Shape.stripformer;
  try change (@add ShapeTorch) with Shape.broadcast;
  try change (@mul ShapeTorch) with Shape.broadcast;
  try change (@iadd ShapeTorch) with Shape.broadcast_into;
  try change (@cat1 ShapeTorch) with Shape.cat1;
  try change (@arange ShapeTorch) with Shape.arange;
  try change (@index_col ShapeTorch) with Shape.index_col;
  try change (@index_row ShapeTorch) with Shape.index_row;
  try change (@index_hw ShapeTorch) with Shape.index_hw;
  try change (@dropout ShapeTorch) with (fun (_ : Dropout) (x : list Z) => x);
  try change (@Tensor ShapeTorch) with (list Z).

Lemma group_norm_shape (g c B H W : Z) :
  B * c / g * (H * W) <> 1 ->
  Shape.group_norm (mkGroupNorm g c) [B; c; H; W] = Ok [B; c; H; W].
Proof.
  intros Hv. unfold Shape.group_norm.
  cbn [gn_num_groups gn_num_channels fold_right].
  rewrite Z.mul_1_r. apply Z.eqb_neq in Hv. rewrite Hv.
  rewrite Z.eqb_refl. reflexivity.
Qed.

Lemma group_norm_mismatch (g c c' B H W : Z) :
  c' <> c ->
  B * c' / g * (H * W) <> 1 ->
  Shape.group_norm (mkGroupNorm g c) [B; c'; H; W] = Raise RuntimeError.
Proof.
  intros Hc Hv. unfold Shape.group_norm.
  cbn [gn_num_groups gn_num_channels fold_right].
  rewrite Z.mul_1_r. apply Z.eqb_neq in Hv. rewrite Hv.
  apply Z.eqb_neq in Hc. rewrite Hc. reflexivity.
Qed.

(** A map of a positive multiple of 32 channels has more than one value per
    group of [Normalize] as soon as it has more than one value per
    channel. *)
Lemma more_than_one_value (c B H W : Z) :
  c mod 32 = 0 -> 0 <= c ->
  0 < B -> 0 < H -> 0 < W ->
  1 < B * (H * W) ->
  B * c / 32 * (H * W) <> 1.
Proof.
  intros Hm Hc HB HH HW Hv.
  apply Z.mod_divide in Hm; [ | lia]. destruct Hm as [j ->].
  replace (B * (j * 32)) with (B * j * 32) by lia.
  rewrite Z.div_mul by lia.
  replace (B * j * (H * W)) with (j * (B * (H * W))) by lia.
  assert (Hj : j = 0 \/ 1 <= j) by lia.
  destruct Hj as [-> | Hj]; [lia | nia].
Qed.

(** ** ResidualBlock *)

Lemma ResidualBlock_forward_shape (ci co tc : Z) (p : Q) (isn : bool)
    (rb : ResidualBlock) (B H W : Z) (t : option (list Z)) :
  ResidualBlock_init ci co tc p isn = Ok rb ->
  0 < co ->
  batch_of_maps B H W ->
  conditioning_fits isn tc B t ->
  ResidualBlock_forward (torch := ShapeTorch) rb [B; ci; H; W] t
  = Ok [B; co; H; W].
Proof.
  intros Hinit Hco (HB & HH & HW & Hv) Ht.
  apply ResidualBlock_init_Ok in Hinit.
  destruct Hinit as (-> & Hm1 & Hp1 & Hm2 & Hp2).
  pose proof (more_than_one_value ci B H W Hm1 Hp1 HB HH HW Hv) as Hv1.
  pose proof (more_than_one_value co B H W Hm2 Hp2 HB HH HW Hv) as Hv2.
  assert (Hs : Shortcut_forward (torch := ShapeTorch)
                 (if negb (ci =? co)
                  then ShortcutConv (mkConv2d ci co (1, 1) (1, 1) (0, 0) (1, 1))
                  else ShortcutIdentity) [B; ci; H; W] = Ok [B; co; H; W]).
  { destruct (ci =? co) eqn:E; cbn [negb Shortcut_forward].
    - apply Z.eqb_eq in E. subst co. reflexivity.
    - shape_ops. apply conv2d_1x1_shape; assumption. }
  unfold ResidualBlock_forward.
  cbn [rb_is_noise rb_norm1 rb_conv1 rb_norm2 rb_conv2 rb_shortcut rb_time_emb
       rb_dropout].
  rewrite Hs. clear Hs.
  shape_ops. rewrite group_norm_shape by exact Hv1. cbn [bind].
  rewrite Swish_forward_shape. cbn [bind].
  unfold conv3x3. rewrite conv2d_3x3_shape by assumption. cbn [bind].
  destruct isn.
  - destruct Ht as [Ht | (Bt & -> & HBt)]; [discriminate | ].
    cbn [getattr bind]. rewrite Swish_forward_shape. cbn [bind].
    rewrite linear_shape_2d. cbn [bind Shape.index_hw].
    rewrite broadcast_into_conditioning by exact HBt. cbn [bind].
    rewrite group_norm_shape by exact Hv2. cbn [bind].
    rewrite Swish_forward_shape. cbn [bind].
    rewrite conv2d_3x3_shape by assumption. cbn [bind].
    apply Shape_broadcast_refl.
  - cbn [bind]. rewrite group_norm_shape by exact Hv2. cbn [bind].
    rewrite Swish_forward_shape. cbn [bind].
    rewrite conv2d_3x3_shape by assumption. cbn [bind].
    apply Shape_broadcast_refl.
Qed.

Lemma ResidualBlock_forward_wrong_channels (ci co tc : Z) (p : Q) (isn : bool)
    (rb : ResidualBlock) (B c H W : Z) (t : option (list Z)) :
  ResidualBlock_init ci co tc p isn = Ok rb ->
  c <> ci ->
  B * c / 32 * (H * W) <> 1 ->
  ResidualBlock_forward (torch := ShapeTorch) rb [B; c; H; W] t
  = Raise RuntimeError.
Proof.
  intros Hinit Hc Hv.
  apply ResidualBlock_init_Ok in Hinit. destruct Hinit as (-> & _).
  unfold ResidualBlock_forward. cbn [rb_norm1]. shape_ops.
  rewrite group_norm_mismatch by assumption. reflexivity.
Qed.

Lemma ResidualBlock_forward_needs_conditioning {torch : Torch}
    (rb : ResidualBlock) (x : Tensor) :
  rb_is_noise rb = true ->
  returns (ResidualBlock_forward rb x None) = false.
Proof.
  intros H. unfold ResidualBlock_forward. rewrite H.
  destruct (group_norm (rb_norm1 rb) x) as [h | e]; cbn [bind]; [ | reflexivity].
  destruct (Swish_forward h) as [a | e]; cbn [bind]; [ | reflexivity].
  destruct (conv2d (rb_conv1 rb) a) as [h1 | e]; cbn [bind]; [ | reflexivity].
  destruct (getattr (rb_time_emb rb)) as [l | e]; cbn [bind]; reflexivity.
Qed.

Lemma ResidualBlock_forward_None_TypeError (ci co tc : Z) (p : Q)
    (rb : ResidualBlock) (B H W : Z) :
  ResidualBlock_init ci co tc p true = Ok rb ->
  0 < co ->
  batch_of_maps B H W ->
  ResidualBlock_forward (torch := ShapeTorch) rb [B; ci; H; W] None
  = Raise TypeError.
Proof.
  intros Hinit Hco (HB & HH & HW & Hv).
  apply ResidualBlock_init_Ok in Hinit.
  destruct Hinit as (-> & Hm1 & Hp1 & _).
  pose proof (more_than_one_value ci B H W Hm1 Hp1 HB HH HW Hv) as Hv1.
  unfold ResidualBlock_forward.
  cbn [rb_is_noise rb_norm1 rb_conv1 rb_time_emb].
  shape_ops. rewrite group_norm_shape by exact Hv1. cbn [bind].
  rewrite Swish_forward_shape. cbn [bind].
  unfold conv3x3. rewrite conv2d_3x3_shape by assumption. reflexivity.
Qed.

Lemma broadcast_into_batch_mismatch (B Bt co H W : Z) :
  Bt <> B -> Bt <> 1 ->
  Shape.broadcast_into [B; co; H; W] [Bt; co; 1; 1] = Raise RuntimeError.
Proof.
  intros H1 H2. unfold Shape.broadcast_into, Shape.broadcast. cbn [rev app].
  cbn [Shape.broadcast_rev bind].
  replace (B =? Bt) with false by (symmetry; apply Z.eqb_neq; congruence).
  replace (Bt =? 1) with false by (symmetry; apply Z.eqb_neq; congruence).
  destruct (B =? 1) eqn:EB; cbn [bind]; [ | reflexivity].
  rewrite Z.eqb_refl. cbn [bind].
  destruct (H =? 1) eqn:EH; cbn [bind];
    [ | change (1 =? 1) with true; cbn [bind] ];
    (destruct (W =? 1) eqn:EW; cbn [bind rev app Shape.eqb];
     [ | change (1 =? 1) with true; cbn [bind rev app Shape.eqb] ];
     replace (Bt =? B) with false by (symmetry; apply Z.eqb_neq; congruence);
     reflexivity).
Qed.

Lemma ResidualBlock_forward_batch_mismatch (ci co tc : Z) (p : Q)
    (rb : ResidualBlock) (B Bt H W : Z) :
  ResidualBlock_init ci co tc p true = Ok rb ->
  0 < co ->
  batch_of_maps B H W ->
  Bt <> B -> Bt <> 1 ->
  ResidualBlock_forward (torch := ShapeTorch) rb [B; ci; H; W] (Some [Bt; tc])
  = Raise RuntimeError.
Proof.
  intros Hinit Hco (HB & HH & HW & Hv) H1 H2.
  apply ResidualBlock_init_Ok in Hinit.
  destruct Hinit as (-> & Hm1 & Hp1 & _).
  pose proof (more_than_one_value ci B H W Hm1 Hp1 HB HH HW Hv) as Hv1.
  unfold ResidualBlock_forward.
  cbn [rb_is_noise rb_norm1 rb_conv1 rb_time_emb].
  shape_ops. rewrite group_norm_shape by exact Hv1. cbn [bind].
  rewrite Swish_forward_shape. cbn [bind].
  unfold conv3x3. rewrite conv2d_3x3_shape by assumption. cbn [bind getattr].
  rewrite Swish_forward_shape. cbn [bind].
  rewrite linear_shape_2d. cbn [bind Shape.index_hw].
  rewrite broadcast_into_batch_mismatch by assumption. reflexivity.
Qed.

(** ** DownBlock, UpBlock, MiddleBlock *)

Lemma stripformer_shape (s : Stripformer) (B C H W : Z) :
  Shape.stripformer s [B; C; H; W] = Ok [B; C; H; W].
Proof. reflexivity. Qed.

Lemma MLP_forward_shape (C : Z) (m : MLP) (B H W : Z) :
  MLP_init C 2 = Ok m -> 0 < C -> 0 < H -> 0 < W ->
  MLP_forward (torch := ShapeTorch) m [B; C; H; W] = Ok [B; C; H; W].
Proof.
  intros Hinit HC HH HW.
  rewrite (MLP_forward_steps (torch := ShapeTorch) C m [B; C; H; W] Hinit).
  apply MLP_steps_shape; assumption.
Qed.

Lemma DownBlock_forward_shape (ci co tc flag : Z) (isn : bool) (b : DownBlock)
    (B H W : Z) (t : option (list Z)) :
  DownBlock_init ci co tc flag isn = Ok b ->
  0 < co ->
  batch_of_maps B H W ->
  conditioning_fits isn tc B t ->
  DownBlock_forward (torch := ShapeTorch) b [B; ci; H; W] t = Ok [B; co; H; W].
Proof.
  intros Hinit Hco Hmap Ht.
  apply DownBlock_init_Ok in Hinit. destruct Hinit as (res & mlp & Hres & Hmlp & ->).
  unfold DownBlock_forward. cbn [db_res db_mlp db_att db_flag].
  rewrite (ResidualBlock_forward_shape _ _ _ _ _ _ B H W t Hres Hco Hmap Ht).
  cbn [bind]. destruct Hmap as (_ & HH & HW & _).
  rewrite (MLP_forward_shape _ _ B H W Hmlp Hco HH HW). cbn [bind].
  destruct (flag >=? 2); reflexivity.
Qed.

Lemma UpBlock_forward_shape (ci co tc flag2 : Z) (isn : bool) (flag1 : Z)
    (b : UpBlock) (B H W : Z) (t : option (list Z)) :
  UpBlock_init ci co tc flag2 isn flag1 = Ok b ->
  0 < co ->
  batch_of_maps B H W ->
  conditioning_fits isn tc B t ->
  UpBlock_forward (torch := ShapeTorch) b [B; ci + co; H; W] t
  = Ok [B; co; H; W].
Proof.
  intros Hinit Hco Hmap Ht.
  apply UpBlock_init_Ok in Hinit. destruct Hinit as (res & mlp & Hres & Hmlp & ->).
  unfold UpBlock_forward. cbn [ub_res ub_mlp ub_att ub_flag1 ub_flag2].
  rewrite (ResidualBlock_forward_shape _ _ _ _ _ _ B H W t Hres Hco Hmap Ht).
  cbn [bind]. destruct Hmap as (_ & HH & HW & _).
  destruct (negb (flag1 =? 0)); cbn [bind andb].
  - rewrite (MLP_forward_shape _ _ B H W Hmlp Hco HH HW). cbn [bind].
    destruct (flag2 >=? 2); reflexivity.
  - reflexivity.
Qed.

Lemma UpBlock_forward_wrong_channels (ci co tc flag2 : Z) (isn : bool) (flag1 : Z)
    (b : UpBlock) (B c H W : Z) (t : option (list Z)) :
  UpBlock_init ci co tc flag2 isn flag1 = Ok b ->
  c <> ci + co ->
  B * c / 32 * (H * W) <> 1 ->
  UpBlock_forward (torch := ShapeTorch) b [B; c; H; W] t = Raise RuntimeError.
Proof.
  intros Hinit Hc Hv.
  apply UpBlock_init_Ok in Hinit. destruct Hinit as (res & mlp & Hres & Hmlp & ->).
  unfold UpBlock_forward. cbn [ub_res].
  rewrite (ResidualBlock_forward_wrong_channels _ _ _ _ _ _ B _ H W t Hres Hc Hv).
  reflexivity.
Qed.

Lemma MiddleBlock_forward_shape (n tc : Z) (isn : bool) (mb : MiddleBlock)
    (B H W : Z) (t : option (list Z)) :
  MiddleBlock_init n tc isn = Ok mb ->
  0 < n ->
  batch_of_maps B H W ->
  conditioning_fits isn tc B t ->
  MiddleBlock_forward (torch := ShapeTorch) mb [B; n; H; W] t = Ok [B; n; H; W].
Proof.
  intros Hinit Hn Hmap Ht.
  apply MiddleBlock_init_Ok in Hinit. destruct Hinit as (r1 & r2 & H1 & H2 & ->).
  unfold MiddleBlock_forward.
  cbn [mb_res1 mb_dia1 mb_dia2 mb_sf mb_dia3 mb_dia4 mb_res2].
  rewrite (ResidualBlock_forward_shape _ _ _ _ _ _ B H W t H1 Hn Hmap Ht).
  cbn [bind]. shape_ops.
  pose proof Hmap as (_ & HH & HW & _).
  rewrite conv2d_3x3_shape by assumption. cbn [bind].
  rewrite conv2d_3x3_shape by assumption. cbn [bind].
  rewrite stripformer_shape. cbn [bind].
  rewrite conv2d_3x3_shape by assumption. cbn [bind].
  rewrite conv2d_3x3_shape by assumption. cbn [bind].
  apply (ResidualBlock_forward_shape _ _ _ _ _ _ B H W t H2 Hn Hmap Ht).
Qed.

(** ** TimeEmbedding *)

Lemma broadcast_rev_one_l (y : Z) (a b r : list Z) :
  Shape.broadcast_rev a b = Ok r ->
  Shape.broadcast_rev (1 :: a) (y :: b) = Ok (y :: r).
Proof.
  intros H. cbn [Shape.broadcast_rev]. rewrite H. cbn [bind].
  destruct (1 =? y) eqn:E.
  - apply Z.eqb_eq in E. subst y. reflexivity.
  - change (1 =? 1) with true. reflexivity.
Qed.

Lemma TimeEmbedding_init_Ok (n : Z) (te : TimeEmbedding) :
  TimeEmbedding_init n = Ok te ->
  te = mkTimeEmbedding n (mkLinear (n / 4) n) (mkLinear n n) /\ 0 <= n.
Proof.
  unfold TimeEmbedding_init. intros H. bind_inv H. bind_inv H.
  apply nn_Linear_Ok in E, E0. destruct E as (-> & _ & Hn), E0 as (-> & _ & _).
  injection H as <-. split; [reflexivity | exact Hn].
Qed.

(** The sinusoidal features of a batch of [Bt] timesteps: [[Bt, 2 * half_dim]]. *)
Lemma TimeEmbedding_features_shape (h Bt : Z) :
  0 <= h ->
  (r <- Shape.arange h ;;
   tc <- Shape.index_col [Bt] ;;
   er <- Shape.index_row r ;;
   emb <- Shape.broadcast tc er ;;
   Shape.cat1 emb emb) = Ok [Bt; h + h].
Proof.
  intros Hh. unfold Shape.arange.
  replace (h <? 0) with false by (symmetry; apply Z.ltb_ge; lia).
  cbn [bind Shape.index_col Shape.index_row].
  unfold Shape.broadcast. cbn [rev app].
  rewrite (broadcast_rev_one_l h [Bt] [1] [Bt])
    by (apply broadcast_rev_one_r; reflexivity).
  cbn [bind rev app Shape.cat1 Shape.eqb]. rewrite Z.eqb_refl. reflexivity.
Qed.

Lemma TimeEmbedding_forward_shape (n : Z) (te : TimeEmbedding) (Bt : Z) :
  TimeEmbedding_init n = Ok te ->
  n / 8 <> 1 ->
  2 * (n / 8) = n / 4 ->
  TimeEmbedding_forward (torch := ShapeTorch) te (Some [Bt]) = Ok [Bt; n].
Proof.
  intros Hinit H1 H2.
  apply TimeEmbedding_init_Ok in Hinit. destruct Hinit as (-> & Hn).
  unfold TimeEmbedding_forward. cbn [te_n_channels te_lin1 te_lin2].
  replace (n / 8 - 1 =? 0) with false by (symmetry; apply Z.eqb_neq; lia).
  cbn [bind]. shape_ops.
  cbn [tsin tcos texp mul_scalar ShapeTorch].
  pose proof (TimeEmbedding_features_shape (n / 8) Bt
                ltac:(apply Z.div_pos; lia)) as Hf.
  destruct (Shape.arange (n / 8)) as [r | e]; cbn [bind] in Hf |- *;
    [ | discriminate].
  destruct (Shape.index_col [Bt]) as [tc | e]; cbn [bind] in Hf |- *;
    [ | discriminate].
  destruct (Shape.index_row r) as [er | e]; cbn [bind] in Hf |- *;
    [ | discriminate].
  destruct (Shape.broadcast tc er) as [emb | e]; cbn [bind] in Hf |- *;
    [ | discriminate].
  rewrite Hf. cbn [bind].
  replace (n / 8 + n / 8) with (n / 4) by lia.
  rewrite linear_shape_2d. cbn [bind].
  rewrite Swish_forward_shape. cbn [bind].
  apply linear_shape_2d.
Qed.

Lemma linear_mismatch_2d (i o B c : Z) :
  c <> i -> Shape.linear (mkLinear i o) [B; c] = Raise RuntimeError.
Proof.
  intros Hc. unfold Shape.linear. cbn [rev app lin_in].
  apply Z.eqb_neq in Hc. rewrite Hc. reflexivity.
Qed.

Lemma TimeEmbedding_forward_odd_quarter (n : Z) (te : TimeEmbedding) (Bt : Z) :
  TimeEmbedding_init n = Ok te ->
  n / 8 <> 1 ->
  2 * (n / 8) <> n / 4 ->
  TimeEmbedding_forward (torch := ShapeTorch) te (Some [Bt]) = Raise RuntimeError.
Proof.
  intros Hinit H1 H2.
  apply TimeEmbedding_init_Ok in Hinit. destruct Hinit as (-> & Hn).
  unfold TimeEmbedding_forward. cbn [te_n_channels te_lin1 te_lin2].
  replace (n / 8 - 1 =? 0) with false by (symmetry; apply Z.eqb_neq; lia).
  cbn [bind]. shape_ops.
  cbn [tsin tcos texp mul_scalar ShapeTorch].
  pose proof (TimeEmbedding_features_shape (n / 8) Bt
                ltac:(apply Z.div_pos; lia)) as Hf.
  destruct (Shape.arange (n / 8)) as [r | e]; cbn [bind] in Hf |- *;
    [ | discriminate].
  destruct (Shape.index_col [Bt]) as [tc | e]; cbn [bind] in Hf |- *;
    [ | discriminate].
  destruct (Shape.index_row r) as [er | e]; cbn [bind] in Hf |- *;
    [ | discriminate].
  destruct (Shape.broadcast tc er) as [emb | e]; cbn [bind] in Hf |- *;
    [ | discriminate].
  rewrite Hf. cbn [bind].
  rewrite linear_mismatch_2d by lia. reflexivity.
Qed.

(** ** get_pad *)

Lemma In_Z_range (lo : Z) (len : nat) (z : Z) :
  lo <= z < lo + Z.of_nat len -> In z (Z_range lo len).
Proof.
  intros Hz. unfold Z_range. apply in_map_iff.
  exists (Z.to_nat (z - lo)). split; [lia | apply in_seq; lia].
Qed.

Lemma is_Ok_eq (r : result Z) (z : Z) : is_Ok r z = true -> r = Ok z.
Proof.
  destruct r as [y | e]; cbn [is_Ok]; [ | discriminate].
  intros H. apply Z.eqb_eq in H. subst y. reflexivity.
Qed.

(** [get_pad] evaluated at stride 1 on every size up to 64, every kernel
    size up to 7 and every dilation up to 16. *)
Lemma get_pad_stride_1_evaluated :
  forallb (fun i =>
    forallb (fun k =>
      forallb (fun d => is_Ok (get_pad i k 1 d) (d * (k - 1) / 2))
        (Z_range 1 16))
      (Z_range 1 7))
    (Z_range 1 64) = true.
Proof. vm_compute. reflexivity. Qed.

(** [get_pad] evaluated on every size up to 64, every stride up to 4, every
    kernel size up to 7 and every dilation up to 4 where the padding needed
    is even and not negative. *)
Lemma get_pad_even_evaluated :
  forallb (fun i =>
    forallb (fun s =>
      forallb (fun k =>
        forallb (fun d =>
          let N := (- (- i / s) - 1) * s + d * (k - 1) + 1 - i in
          if (0 <=? N) && Z.even N then is_Ok (get_pad i k s d) (N / 2)
          else true)
          (Z_range 1 4))
        (Z_range 1 7))
      (Z_range 1 4))
    (Z_range 1 64) = true.
Proof. vm_compute. reflexivity. Qed.

Lemma ceil_div_pos (i s : Z) : 0 < i -> 0 < s -> 1 <= - (- i / s).
Proof.
  intros Hi Hs.
  assert (H : - i / s < 0) by (apply Z.div_lt_upper_bound; lia).
  lia.
Qed.

(** A convolution padded by half of what its output size [ceil(i / s)] needs
    returns that size. *)
Lemma conv_size_ceil (i k s d q : Z) :
  0 < i -> 0 < s -> 0 <= q ->
  (- (- i / s) - 1) * s + d * (k - 1) + 1 - i = 2 * q ->
  Shape.conv_size i k s q d = Ok (- (- i / s)).
Proof.
  intros Hi Hs Hq HN.
  pose proof (ceil_div_pos i s Hi Hs) as Hc.
  unfold Shape.conv_size.
  replace (i + 2 * q - (d * (k - 1) + 1)) with ((- (- i / s) - 1) * s) by lia.
  replace (i + 2 * q <? d * (k - 1) + 1) with false
    by (symmetry; apply Z.ltb_ge; nia).
  rewrite Z.div_mul by lia. f_equal. lia.
Qed.

(** ** Downsample at any size *)

Lemma conv_size_half_up (i : Z) :
  0 < i -> Shape.conv_size i 3 2 1 1 = Ok ((i + 1) / 2).
Proof.
  intros Hi. unfold Shape.conv_size.
  replace (i + 2 * 1 <? 1 * (3 - 1) + 1) with false
    by (symmetry; apply Z.ltb_ge; lia).
  f_equal.
  replace (i + 1) with (i + 2 * 1 - (1 * (3 - 1) + 1) + 1 * 2) by lia.
  rewrite Z.div_add by lia. reflexivity.
Qed.

Lemma Downsample_init_Ok (C : Z) (d : Downsample) :
  Downsample_init C = Ok d ->
  d = mkDownsample (mkConv2d C C (3, 3) (2, 2) (1, 1) (1, 1)).
Proof.
  unfold Downsample_init. intros H. bind_inv H.
  apply nn_Conv2d_Ok in E. destruct E as (-> & _). injection H as <-. reflexivity.
Qed.

Lemma Upsample_init_Ok (C : Z) (u : Upsample) :
  Upsample_init C = Ok u ->
  u = mkUpsample (mkConvTranspose2d C C (4, 4) (2, 2) (1, 1)).
Proof.
  unfold Upsample_init, nn_ConvTranspose2d. intros H. bind_inv H.
  if_inv E. injection E as <-. injection H as <-. reflexivity.
Qed.

Lemma Downsample_forward_shape (C : Z) (d : Downsample) (B H W : Z)
    (t : option (list Z)) :
  Downsample_init C = Ok d -> 0 < C -> 0 < H -> 0 < W ->
  Downsample_forward (torch := ShapeTorch) d [B; C; H; W] t
  = Ok [B; C; (H + 1) / 2; (W + 1) / 2].
Proof.
  intros Hinit HC HH HW. apply Downsample_init_Ok in Hinit. subst d.
  unfold Downsample_forward. cbn [ds_conv]. shape_ops.
  unfold Shape.conv2d, Shape.conv2d_map.
  cbn [conv_in conv_out conv_kernel conv_stride conv_padding conv_dilation fst snd].
  replace (C <? 1) with false by (symmetry; apply Z.ltb_ge; lia).
  rewrite Z.eqb_refl. cbn [negb].
  rewrite !conv_size_half_up by assumption. reflexivity.
Qed.

Lemma Upsample_forward_shape (C : Z) (u : Upsample) (B H W : Z)
    (t : option (list Z)) :
  Upsample_init C = Ok u -> 0 < C -> 0 < H -> 0 < W ->
  Upsample_forward (torch := ShapeTorch) u [B; C; H; W] t
  = Ok [B; C; 2 * H; 2 * W].
Proof.
  intros Hinit HC HH HW. apply Upsample_init_Ok in Hinit. subst u.
  unfold Upsample_forward. cbn [us_conv]. shape_ops.
  unfold Shape.conv_transpose2d, Shape.conv_transpose2d_map.
  cbn [convt_in convt_out convt_kernel convt_stride convt_padding fst snd].
  replace (C <? 1) with false by (symmetry; apply Z.ltb_ge; lia).
  rewrite Z.eqb_refl. cbn [negb].
  rewrite !conv_transpose_size_double by assumption. reflexivity.
Qed.

Lemma double_half_up (i : Z) : 2 * ((i + 1) / 2) = i <-> Z.even i = true.
Proof.
  pose proof (Z.div_mod (i + 1) 2 ltac:(lia)) as Hdm.
  pose proof (Z.mod_pos_bound (i + 1) 2 ltac:(lia)) as Hb.
  rewrite Z.even_spec. split.
  - intros H. exists ((i + 1) / 2). lia.
  - intros [k ->].
    replace (2 * k + 1) with (1 + k * 2) by lia.
    rewrite Z.div_add by lia. change (1 / 2) with 0. lia.
Qed.

(** ** The loops of forward over concatenated module lists *)

Lemma down_loop_app {torch : Torch} (a b : list Module_) (x : Tensor)
    (t : option Tensor) (h : list Tensor) :
  down_loop (a ++ b) x t h
  = ('(x1, h1) <- down_loop a x t h ;; down_loop b x1 t h1).
Proof.
  revert x h. induction a as [| m a IH]; intros x h; cbn [app down_loop bind].
  - reflexivity.
  - destruct (Module_call m x t) as [x1 | e]; cbn [bind]; [apply IH | reflexivity].
Qed.

Lemma up_loop_app {torch : Torch} (a b : list Module_) (x : Tensor)
    (t : option Tensor) (h : list Tensor) :
  up_loop (a ++ b) x t h
  = ('(x1, h1) <- up_loop a x t h ;; up_loop b x1 t h1).
Proof.
  revert x h. induction a as [| m a IH]; intros x h; cbn [app up_loop bind].
  - reflexivity.
  - destruct (isinstance_Upsample m).
    + destruct (Module_call m x t) as [x1 | e]; cbn [bind]; [apply IH | reflexivity].
    + destruct (pop h) as [[s h1] | e]; cbn [bind]; [ | reflexivity].
      destruct (cat1 x s) as [x1 | e]; cbn [bind]; [ | reflexivity].
      destruct (Module_call m x1 t) as [x2 | e]; cbn [bind];
        [apply IH | reflexivity].
Qed.

Lemma repeat_snoc_cons {A : Type} (a : A) (k : nat) (l : list A) :
  repeat a k ++ a :: l = a :: repeat a k ++ l.
Proof.
  induction k as [| k IH]; cbn [repeat app]; [reflexivity | ].
  rewrite IH. reflexivity.
Qed.

Lemma cat1_shape (B c1 c2 H W : Z) :
  Shape.cat1 [B; c1; H; W] [B; c2; H; W] = Ok [B; c1 + c2; H; W].
Proof.
  unfold Shape.cat1. rewrite Z.eqb_refl, Shape_eqb_refl. reflexivity.
Qed.

Lemma py_index_nth (l : list Z) (i : nat) (m : Z) :
  py_index l i = Ok m -> m = nth i l 0 /\ (i < length l)%nat.
Proof.
  unfold py_index. intros H.
  destruct (nth_error l i) as [a | ] eqn:E; [ | discriminate].
  injection H as <-. split.
  - symmetry. apply nth_error_nth. exact E.
  - apply nth_error_Some. congruence.
Qed.

(** ** The blocks of one resolution level *)

Lemma batch_of_maps_scale (B H W a : Z) :
  batch_of_maps B H W -> 0 < a -> batch_of_maps B (a * H) (a * W).
Proof.
  intros (HB & HH & HW & Hv) Ha. unfold batch_of_maps.
  assert (H1 : 0 < a * H) by nia. assert (H2 : 0 < a * W) by nia.
  repeat split; try assumption.
  assert (Hs : H * W <= a * H * (a * W)).
  { assert (Ha2 : 1 <= a * a) by nia.
    assert (Hhw : 0 < H * W) by nia.
    replace (a * H * (a * W)) with (a * a * (H * W)) by lia. nia. }
  nia.
Qed.

Lemma double_mod_32 (c : Z) : c mod 32 = 0 -> (c + c) mod 32 = 0.
Proof.
  intros Hm. apply Z.mod_divide in Hm; [ | lia]. destruct Hm as [j ->].
  replace (j * 32 + j * 32) with (2 * j * 32) by lia. apply Z.mod_mul. lia.
Qed.

Lemma widths_positive (n : Z) (ch : list Z) :
  0 < n -> Forall (fun c => 0 < c) ch ->
  forall k, (k < length ch)%nat -> 0 < n * nth k ch 0.
Proof.
  intros Hn Hch k Hk.
  assert (Hc : 0 < nth k ch 0).
  { apply (proj1 (Forall_nth (fun c => 0 < c) ch) Hch k 0 Hk). }
  nia.
Qed.

Section LevelShapes.

Variables (n : Z) (ch : list Z) (nb : Z) (isn : bool).

(** The [k] [DownBlock]s of a level, run on a map of [ci] channels, push [k]
    maps of [co] channels. *)
Lemma down_blocks_run (k i : nat) (ci co : Z) (dn : list Module_)
    (ci' : Z) (dn' : list Module_) :
  down_blocks n isn k i ci co dn = Ok (ci', dn') ->
  0 < co ->
  exists ext,
    dn' = dn ++ ext /\
    ci' = match k with O => ci | S _ => co end /\
    forall B H W t h,
      batch_of_maps B H W -> conditioning_fits isn (n * 4) B t ->
      down_loop (torch := ShapeTorch) ext [B; ci; H; W] t h
      = Ok ([B; match k with O => ci | S _ => co end; H; W],
            repeat [B; co; H; W] k ++ h).
Proof.
  revert ci dn. induction k as [| k IH]; intros ci dn Hb Hco;
    cbn [down_blocks] in Hb.
  - injection Hb as <- <-. exists []. rewrite app_nil_r.
    repeat split.
  - bind_inv Hb. apply IH in Hb; [ | exact Hco].
    destruct Hb as (ext & -> & -> & Hrun).
    exists (MDownBlock v :: ext). rewrite <- app_assoc. cbn [app].
    split; [reflexivity | ]. split; [destruct k; reflexivity | ].
    intros B H W t h Hmap Ht. cbn [down_loop Module_call].
    rewrite (DownBlock_forward_shape _ _ _ _ _ _ B H W t E Hco Hmap Ht).
    cbn [bind]. rewrite (Hrun B H W t _ Hmap Ht).
    cbn [repeat app]. rewrite repeat_snoc_cons.
    destruct k; reflexivity.
Qed.

(** The [k] [UpBlock]s of a level were all built for [cu + co] input
    channels.  They pop [k] skips of [co] channels; the first runs on the
    incoming map, the others on a [co]-channel output, which fits only when
    [cu = co]. *)
Lemma up_blocks_run (k i : nat) (cu co : Z) (u u' : list Module_) :
  up_blocks n isn k i cu co u = Ok u' ->
  0 < co ->
  exists ext,
    u' = u ++ ext /\
    forall B xc H W t h,
      batch_of_maps B H W -> conditioning_fits isn (n * 4) B t ->
      ((1 <= k)%nat -> xc = cu) ->
      ((2 <= k)%nat -> cu = co) ->
      up_loop (torch := ShapeTorch) ext [B; xc; H; W] t
        (repeat [B; co; H; W] k ++ h)
      = Ok ([B; match k with O => xc | S _ => co end; H; W], h).
Proof.
  revert u. induction k as [| k IH]; intros u Hb Hco; cbn [up_blocks] in Hb.
  - injection Hb as <-. exists []. rewrite app_nil_r. split; [reflexivity | ].
    intros. reflexivity.
  - bind_inv Hb. apply IH in Hb; [ | exact Hco].
    destruct Hb as (ext & -> & Hrun).
    exists (MUpBlock v :: ext). rewrite <- app_assoc. cbn [app].
    split; [reflexivity | ].
    intros B xc H W t h Hmap Ht H1 H2.
    cbn [up_loop isinstance_Upsample repeat app pop bind Module_call].
    shape_ops. rewrite cat1_shape. cbn [bind].
    rewrite (H1 ltac:(lia)).
    rewrite (UpBlock_forward_shape _ _ _ _ _ _ _ B H W t E Hco Hmap Ht).
    cbn [bind].
    rewrite (Hrun B co H W t h Hmap Ht).
    + destruct k; reflexivity.
    + intros Hk. symmetry. apply H2. lia.
    + intros Hk. apply H2. lia.
Qed.

End LevelShapes.

(** ** The levels of the U-Net *)

Lemma up_levels_app (n : Z) (ch : list Z) (nb : Z) (isn : bool)
    (l1 l2 : list nat) (cu : Z) (u : list Module_) :
  up_levels n ch nb isn (l1 ++ l2) cu u
  = ('(cu1, u1) <- up_levels n ch nb isn l1 cu u ;;
     up_levels n ch nb isn l2 cu1 u1).
Proof.
  revert cu u. induction l1 as [| i l1 IH]; intros cu u; cbn [app up_levels].
  - reflexivity.
  - destruct (py_index ch i) as [m | e]; cbn [bind]; [ | reflexivity].
    destruct (up_blocks n isn (Z.to_nat nb) i cu (n * m) u) as [u1 | e];
      cbn [bind]; [ | reflexivity].
    destruct (if (1 <=? i)%nat then py_index ch (i - 1) else Ok 1) as [m' | e];
      cbn [bind]; [ | reflexivity].
    destruct (UpBlock_init (n * m') (n * m) (n * 4) (Z.of_nat i) isn 1)
      as [b | e]; cbn [bind]; [ | reflexivity].
    destruct (if (0 <? i)%nat
              then u0 <- Upsample_init (n * m) ;; Ok ((u1 ++ [MUpBlock b]) ++ [MUpsample u0])
              else Ok (u1 ++ [MUpBlock b])) as [u3 | e]; cbn [bind];
      [apply IH | reflexivity].
Qed.

Lemma pow2_pos (e : nat) : 0 < 2 ^ Z.of_nat e.
Proof. apply Z.pow_pos_nonneg; lia. Qed.

Lemma pow2_succ (e : nat) : 2 ^ Z.of_nat (S e) = 2 * 2 ^ Z.of_nat e.
Proof. rewrite Nat2Z.inj_succ. apply Z.pow_succ_r. lia. Qed.

Lemma half_up_double (a : Z) : (2 * a + 1) / 2 = a.
Proof.
  replace (2 * a + 1) with (1 + a * 2) by lia.
  rewrite Z.div_add by lia. change (1 / 2) with 0. lia.
Qed.

Lemma below_index (ch : list Z) (k : nat) (m' : Z) :
  (if (1 <=? k)%nat then py_index ch (k - 1) else Ok 1) = Ok m' ->
  m' = below ch k.
Proof.
  destruct k as [| j]; cbn [Nat.leb below].
  - intros H. injection H as <-. reflexivity.
  - replace (S j - 1)%nat with j by lia. intros H.
    apply py_index_nth in H. apply H.
Qed.

Section UpLevel.

Variables (n : Z) (ch : list Z) (nb : Z) (isn : bool).
Hypothesis Hnb : 1 <= nb.

(** One level of the up stack: its [UpBlock]s pop the skips of the level's
    [DownBlock]s, the last [UpBlock] pops the skip pushed before them, and
    the [Upsample] doubles the size. *)
Lemma up_level_run (k : nat) (cu : Z) (u : list Module_) (cu' : Z)
    (u' : list Module_) :
  up_levels n ch nb isn [k] cu u = Ok (cu', u') ->
  0 < n * nth k ch 0 ->
  exists ext,
    u' = u ++ ext /\
    cu' = n * nth k ch 0 /\
    forall B H W t h,
      batch_of_maps B H W -> conditioning_fits isn (n * 4) B t ->
      (2 <= nb -> cu = n * nth k ch 0) ->
      up_loop (torch := ShapeTorch) ext [B; cu; H; W] t
        (repeat [B; n * nth k ch 0; H; W] (Z.to_nat nb)
         ++ [B; n * below ch k; H; W] :: h)
      = Ok ([B; n * nth k ch 0; upscale k * H; upscale k * W], h).
Proof.
  intros Hup Hco. cbn [up_levels] in Hup.
  bind_inv Hup. bind_inv Hup. bind_inv Hup. bind_inv Hup. bind_inv Hup.
  injection Hup as <- <-.
  apply py_index_nth in E. destruct E as [-> _].
  apply below_index in E1. subst v1.
  apply up_blocks_run in E0; [ | exact Hco]. destruct E0 as (ext & -> & Hrun).
  set (co := n * nth k ch 0) in *.
  assert (Hblocks : forall B H W t h,
            batch_of_maps B H W -> conditioning_fits isn (n * 4) B t ->
            (2 <= nb -> cu = co) ->
            up_loop (torch := ShapeTorch) (ext ++ [MUpBlock v2]) [B; cu; H; W] t
              (repeat [B; co; H; W] (Z.to_nat nb)
               ++ [B; n * below ch k; H; W] :: h)
            = Ok ([B; co; H; W], h)).
  { intros B H W t h Hmap Ht Hcu. rewrite up_loop_app.
    rewrite (Hrun B cu H W t _ Hmap Ht) by (intros; try reflexivity; apply Hcu; lia).
    cbn [bind].
    replace (match Z.to_nat nb with O => cu | S _ => co end) with co
      by (destruct (Z.to_nat nb) eqn:En; [lia | reflexivity]).
    cbn [up_loop isinstance_Upsample pop bind Module_call]. shape_ops.
    rewrite cat1_shape. cbn [bind].
    replace (co + n * below ch k) with (n * below ch k + co) by lia.
    rewrite (UpBlock_forward_shape _ _ _ _ _ _ _ B H W t E2 Hco Hmap Ht).
    reflexivity. }
  destruct k as [| j]; cbn [Nat.ltb Nat.leb] in E3.
  - injection E3 as <-. exists (ext ++ [MUpBlock v2]).
    rewrite app_assoc. split; [reflexivity | ]. split; [reflexivity | ].
    intros B H W t h Hmap Ht Hcu. cbn [upscale].
    rewrite !Z.mul_1_l. apply Hblocks; assumption.
  - bind_inv E3. injection E3 as <-.
    exists (ext ++ [MUpBlock v2] ++ [MUpsample v]).
    rewrite !app_assoc. split; [reflexivity | ]. split; [reflexivity | ].
    intros B H W t h Hmap Ht Hcu. rewrite up_loop_app.
    rewrite (Hblocks B H W t h Hmap Ht Hcu). cbn [bind].
    cbn [up_loop isinstance_Upsample Module_call bind].
    destruct Hmap as (_ & HH & HW & _).
    rewrite (Upsample_forward_shape _ _ B H W t E Hco HH HW). reflexivity.
Qed.

End UpLevel.

Section Levels.

Variables (n : Z) (ch : list Z) (nb : Z) (isn : bool).
Hypothesis Hnb : 1 <= nb.
Hypothesis Hpos : forall k, (k < length ch)%nat -> 0 < n * nth k ch 0.

Lemma blocks_out (ci co : Z) :
  match Z.to_nat nb with O => ci | S _ => co end = co.
Proof.
  destruct (Z.to_nat nb) eqn:En; [lia | reflexivity].
Qed.

(** The levels [k, ..., k + e] of both stacks, from the input of level [k]
    down to the innermost size and back up: the down loop leaves the skips
    the up loop takes, and nothing below the level's input stays popped. *)
Lemma levels_run (e : nat) :
  forall (k : nat), (k + S e = length ch)%nat ->
  (2 <= nb ->
   forall j, (k <= j)%nat -> (S j < length ch)%nat ->
   nth j ch 0 = nth (S j) ch 0) ->
  forall ci co0 dn ci' co' dn' u cu' u',
    down_levels n ch nb isn (seq k (S e)) ci co0 dn = Ok (ci', co', dn') ->
    up_levels n ch nb isn (rev (seq k (S e))) (n * nth (length ch - 1) ch 0) u
    = Ok (cu', u') ->
    ci = n * below ch k ->
    exists dext uext,
      dn' = dn ++ dext /\
      u' = u ++ uext /\
      co' = n * nth (length ch - 1) ch 0 /\
      cu' = n * nth k ch 0 /\
      forall B hm wm t h,
        batch_of_maps B hm wm -> conditioning_fits isn (n * 4) B t ->
        exists sk,
          down_loop (torch := ShapeTorch) dext
            [B; ci; 2 ^ Z.of_nat e * hm; 2 ^ Z.of_nat e * wm] t
            ([B; ci; 2 ^ Z.of_nat e * hm; 2 ^ Z.of_nat e * wm] :: h)
          = Ok ([B; n * nth (length ch - 1) ch 0; hm; wm], sk) /\
          up_loop (torch := ShapeTorch) uext
            [B; n * nth (length ch - 1) ch 0; hm; wm] t sk
          = Ok ([B; n * nth k ch 0;
                 upscale k * (2 ^ Z.of_nat e * hm);
                 upscale k * (2 ^ Z.of_nat e * wm)], h).
Proof.
  induction e as [| e IH];
    intros k Hk Hwire ci co0 dn ci' co' dn' u cu' u' Hdown Hup Hci.
  - cbn [seq down_levels] in Hdown.
    bind_inv Hdown. bind_inv Hdown. destruct v0 as [ci1 dn1]. bind_inv Hdown.
    cbn [seq rev app] in Hup.
    apply py_index_nth in E. destruct E as [-> _].
    apply down_blocks_run in E0; [ | apply Hpos; lia].
    destruct E0 as (dext & -> & -> & Hrun).
    replace (Z.of_nat k <? Z.of_nat (length ch) - 1) with false in E1
      by (symmetry; apply Z.ltb_ge; lia).
    injection E1 as <-. injection Hdown as <- <- <-.
    apply (up_level_run n ch nb isn Hnb) in Hup; [ | apply Hpos; lia].
    destruct Hup as (uext & -> & -> & Hurun).
    replace (length ch - 1)%nat with k in * by lia.
    exists dext, uext. repeat (split; [reflexivity | ]).
    intros B hm wm t h Hmap Ht.
    change (2 ^ Z.of_nat 0) with 1. rewrite !Z.mul_1_l.
    eexists. split.
    + rewrite (Hrun B hm wm t _ Hmap Ht). rewrite blocks_out. reflexivity.
    + subst ci. apply Hurun; try assumption. reflexivity.
  - change (seq k (S (S e))) with (k :: seq (S k) (S e)) in Hdown, Hup.
    cbn [down_levels] in Hdown. cbn [rev] in Hup.
    bind_inv Hdown. bind_inv Hdown. destruct v0 as [ci1 dn1]. bind_inv Hdown.
    apply py_index_nth in E. destruct E as [-> _].
    assert (Hco : 0 < n * nth k ch 0) by (apply Hpos; lia).
    apply down_blocks_run in E0; [ | exact Hco].
    destruct E0 as (dext & -> & -> & Hrun).
    rewrite blocks_out in *.
    replace (Z.of_nat k <? Z.of_nat (length ch) - 1) with true in E1
      by (symmetry; apply Z.ltb_lt; lia).
    bind_inv E1. injection E1 as <-.
    rewrite up_levels_app in Hup. bind_inv Hup. destruct v0 as [cu1 u1].
    destruct (IH (S k) ltac:(lia)
                ltac:(intros H2 j Hj1 Hj2; apply (Hwire H2); lia)
                _ _ _ _ _ _ _ _ _ Hdown E0 eq_refl)
      as (dint & uint & -> & -> & -> & -> & Hin).
    apply (up_level_run n ch nb isn Hnb) in Hup; [ | exact Hco].
    destruct Hup as (uext & -> & -> & Hurun).
    exists (dext ++ MDownsample v :: dint), (uint ++ uext).
    split; [rewrite <- !app_assoc; reflexivity | ].
    split; [rewrite <- !app_assoc; reflexivity | ].
    repeat (split; [reflexivity | ]).
    intros B hm wm t h Hmap Ht.
    pose proof (pow2_pos e) as Hp.
    pose proof (batch_of_maps_scale B hm wm _ Hmap (pow2_pos (S e))) as Hbig.
    replace (2 ^ Z.of_nat (S e) * hm) with (2 * (2 ^ Z.of_nat e * hm)) in *
      by (rewrite pow2_succ; lia).
    replace (2 ^ Z.of_nat (S e) * wm) with (2 * (2 ^ Z.of_nat e * wm)) in *
      by (rewrite pow2_succ; lia).
    set (a := 2 ^ Z.of_nat e * hm) in *. set (b := 2 ^ Z.of_nat e * wm) in *.
    set (co := n * nth k ch 0) in *.
    destruct (Hin B hm wm t
                (repeat [B; co; 2 * a; 2 * b] (Z.to_nat nb)
                 ++ [B; ci; 2 * a; 2 * b] :: h) Hmap Ht)
      as (sk & Hd & Hu).
    exists sk. split.
    + rewrite down_loop_app.
      rewrite (Hrun B (2 * a) (2 * b) t _ Hbig Ht).
      cbn [bind down_loop Module_call].
      destruct Hbig as (_ & Ha2 & Hb2 & _).
      rewrite (Downsample_forward_shape _ _ B (2 * a) (2 * b) t E Hco Ha2 Hb2).
      rewrite !half_up_double. cbn [bind]. exact Hd.
    + rewrite up_loop_app. rewrite Hu. cbn [bind upscale].
      subst ci. apply Hurun; [exact Hbig | exact Ht | ].
      intros Hnb2. unfold co. rewrite (Hwire Hnb2 k) by lia. reflexivity.
Qed.

End Levels.

(** ** The whole model *)

Lemma DenoiserUNet_init_parts (ic oc n : Z) (ch : list Z) (nb : Z) (isn : bool)
    (m : DenoiserUNet) :
  DenoiserUNet_init ic oc n ch nb isn = Ok m ->
  image_proj m = conv3x3 ic n /\
  is_noise m = isn /\
  (isn = true ->
   exists te, TimeEmbedding_init (n * 4) = Ok te /\ time_emb m = Some te) /\
  exists ci co ci',
    down_levels n ch nb isn (seq 0 (length ch)) n n [] = Ok (ci, co, down m) /\
    MiddleBlock_init co (n * 4) false = Ok (middle m) /\
    up_levels n ch nb isn (rev (seq 0 (length ch))) co [] = Ok (ci', up m) /\
    final m = conv3x3 ci' oc.
Proof.
  unfold DenoiserUNet_init. intros H.
  bind_inv H. bind_inv H. bind_inv H. destruct v1 as [[ci co] dn].
  bind_inv H. bind_inv H. destruct v2 as [ci' u]. bind_inv H.
  injection H as <-. cbn [image_proj is_noise time_emb down middle up final].
  apply nn_Conv2d_Ok in E, E4. destruct E as (-> & _), E4 as (-> & _).
  split; [reflexivity | ]. split; [reflexivity | ]. split.
  - intros ->. bind_inv E0. injection E0 as <-. exists v. split; [exact E | reflexivity].
  - exists ci, co, ci'. repeat split; assumption.
Qed.

Lemma down_levels_last_width (n : Z) (ch : list Z) (nb : Z) (isn : bool)
    (levels : list nat) (i : nat) :
  forall ci co dn ci' co' dn',
    down_levels n ch nb isn (levels ++ [i]) ci co dn = Ok (ci', co', dn') ->
    co' = n * nth i ch 0.
Proof.
  induction levels as [| j levels IH]; intros ci co dn ci' co' dn' H;
    cbn [app down_levels] in H.
  - bind_inv H. bind_inv H. destruct v0 as [ci1 dn1]. bind_inv H.
    injection H as _ <- _. apply py_index_nth in E. destruct E as [-> _].
    reflexivity.
  - bind_inv H. bind_inv H. destruct v0 as [ci1 dn1]. bind_inv H.
    apply IH in H. exact H.
Qed.

Lemma down_levels_first_width (n : Z) (ch : list Z) (nb : Z) (isn : bool)
    (i : nat) (levels : list nat) (ci co : Z) (dn : list Module_)
    (r : Z * Z * list Module_) :
  1 <= nb ->
  down_levels n ch nb isn (i :: levels) ci co dn = Ok r ->
  ci mod 32 = 0 /\ 0 <= ci.
Proof.
  intros Hnb H. cbn [down_levels] in H. bind_inv H. bind_inv H.
  destruct (Z.to_nat nb) as [| k] eqn:En; [lia | ].
  cbn [down_blocks] in E0. bind_inv E0.
  apply DownBlock_init_Ok in E1. destruct E1 as (res & mlp & Hres & _).
  apply ResidualBlock_init_Ok in Hres. destruct Hres as (_ & Hm & Hp & _).
  split; assumption.
Qed.

Lemma time_channels_fit (n : Z) :
  n mod 32 = 0 -> n * 4 / 8 <> 1 /\ 2 * (n * 4 / 8) = n * 4 / 4.
Proof.
  intros Hm. apply Z.mod_divide in Hm; [ | lia]. destruct Hm as [j ->].
  replace (j * 32 * 4) with (16 * j * 8) by lia. rewrite Z.div_mul by lia.
  replace (16 * j * 8) with (32 * j * 4) by lia. rewrite Z.div_mul by lia.
  lia.
Qed.

(** The timestep embedding of a model whose base width is a multiple of 32
    fits every conditioned block. *)
Lemma forward_conditioning (n : Z) (isn : bool) (m : DenoiserUNet) (B : Z)
    (t : option (list Z)) :
  is_noise m = isn ->
  (isn = true ->
   exists te, TimeEmbedding_init (n * 4) = Ok te /\ time_emb m = Some te) ->
  n mod 32 = 0 ->
  timestep_fits isn B t ->
  exists t',
    (if is_noise m
     then
       te <- getattr (time_emb m) ;;
       e <- TimeEmbedding_forward (torch := ShapeTorch) te t ;;
       Ok (Some e)
     else Ok None) = Ok t' /\
    conditioning_fits isn (n * 4) B t'.
Proof.
  intros Hn Hte Hm Ht. rewrite Hn. destruct isn.
  - destruct (Hte eq_refl) as (te & Hinit & ->).
    destruct Ht as [Ht | (Bt & -> & HB)]; [discriminate | ].
    destruct (time_channels_fit n Hm) as [H1 H2].
    cbn [getattr bind].
    rewrite (TimeEmbedding_forward_shape (n * 4) te Bt Hinit H1 H2).
    cbn [bind]. eexists. split; [reflexivity | ].
    right. exists Bt. split; [reflexivity | exact HB].
  - exists None. split; [reflexivity | ]. left. reflexivity.
Qed.

Lemma forward_shape_when_widths_agree (ic oc n : Z) (ch : list Z) (nb : Z)
    (isn : bool) (m : DenoiserUNet) (B hm wm : Z) (t : option (list Z)) :
  DenoiserUNet_init ic oc n ch nb isn = Ok m ->
  ch <> [] ->
  1 <= nb ->
  widths_agree ch nb ->
  0 < n -> Forall (fun c => 0 < c) ch -> 0 < oc ->
  batch_of_maps B hm wm ->
  timestep_fits isn B t ->
  forward (torch := ShapeTorch) m
    [B; ic; 2 ^ Z.of_nat (length ch - 1) * hm; 2 ^ Z.of_nat (length ch - 1) * wm] t
  = Ok [B; oc; 2 ^ Z.of_nat (length ch - 1) * hm;
        2 ^ Z.of_nat (length ch - 1) * wm].
Proof.
  intros Hinit Hch Hnb Hwire Hn0 Hchpos Hoc Hmap Ht.
  pose proof (widths_positive n ch Hn0 Hchpos) as Hpos.
  pose proof Hmap as (_ & Hhm & Hwm & _).
  apply DenoiserUNet_init_parts in Hinit.
  destruct Hinit as (Hproj & Hn & Hte & ci & co & ci' & Hdown & Hmid & Hup & Hfin).
  assert (HL : exists e, length ch = S e).
  { destruct ch as [| c ch']; [congruence | ]. exists (length ch'). reflexivity. }
  destruct HL as [e HL]. rewrite HL in Hdown, Hup.
  assert (HLe : (length ch - 1)%nat = e) by lia.
  assert (Hco : co = n * nth (length ch - 1) ch 0).
  { rewrite HLe. rewrite seq_S in Hdown.
    apply down_levels_last_width in Hdown. exact Hdown. }
  subst co.
  assert (Hn32 : n mod 32 = 0).
  { cbn [seq] in Hdown.
    apply (down_levels_first_width _ _ _ _ _ _ _ _ _ _ Hnb Hdown). }
  rewrite HLe.
  assert (Hw : 2 <= nb ->
               forall j, (0 <= j)%nat -> (S j < length ch)%nat ->
               nth j ch 0 = nth (S j) ch 0).
  { intros H2 j _ Hj. destruct Hwire as [H1 | Hw]; [lia | apply Hw; exact Hj]. }
  destruct (levels_run n ch nb isn Hnb Hpos e 0 ltac:(lia) Hw
              _ _ _ _ _ _ _ _ _ Hdown Hup ltac:(cbn [below]; lia))
    as (dext & uext & Hd & Hu & _ & -> & Hrun).
  cbn [app] in Hd, Hu.
  destruct (forward_conditioning n isn m B t Hn Hte Hn32 Ht) as (t' & Hcond & Hfit).
  pose proof (pow2_pos e) as Hp.
  assert (Hmid0 : 0 < n * nth (length ch - 1) ch 0) by (apply Hpos; lia).
  set (H := 2 ^ Z.of_nat e * hm) in *. set (W := 2 ^ Z.of_nat e * wm) in *.
  assert (HH : 0 < H) by (unfold H; nia).
  assert (HW : 0 < W) by (unfold W; nia).
  destruct (Hrun B hm wm t' [] Hmap Hfit) as (sk & Hdl & Hul).
  unfold forward, forward_skips. rewrite Hcond. cbn [bind].
  rewrite Hproj, Hfin, Hd, Hu. shape_ops. unfold conv3x3.
  rewrite conv2d_3x3_shape by assumption. cbn [bind].
  fold H W in Hdl. rewrite Hdl. cbn [bind].
  rewrite (MiddleBlock_forward_shape _ _ _ _ B hm wm t' Hmid Hmid0 Hmap)
    by (left; reflexivity).
  cbn [bind]. rewrite Hul. cbn [bind upscale].
  rewrite Swish_forward_shape. cbn [bind].
  rewrite !Z.mul_1_l.
  rewrite conv2d_3x3_shape by assumption. reflexivity.
Qed.

(** ** Levels of different width under several blocks per resolution *)

Ltac bind_inv_as H a Ha :=
  apply bind_Ok in H; destruct H as (a & Ha & H).

Section UpLevelMismatch.

Variables (n : Z) (ch : list Z) (nb : Z) (isn : bool).
Hypothesis Hnb : 2 <= nb.

(** With two or more blocks per level, the second [UpBlock] of a level that
    is entered with a width other than its own gets [co + co] channels
    instead of the [cu + co] it was built for. *)
Lemma up_level_mismatch (k : nat) (cu : Z) (u : list Module_) (cu' : Z)
    (u' : list Module_) :
  up_levels n ch nb isn [k] cu u = Ok (cu', u') ->
  0 < n * nth k ch 0 ->
  exists ext,
    u' = u ++ ext /\
    forall B H W t h,
      batch_of_maps B H W -> conditioning_fits isn (n * 4) B t ->
      cu <> n * nth k ch 0 ->
      up_loop (torch := ShapeTorch) ext [B; cu; H; W] t
        (repeat [B; n * nth k ch 0; H; W] (Z.to_nat nb) ++ h)
      = Raise RuntimeError.
Proof.
  intros Hup Hco. cbn [up_levels] in Hup.
  bind_inv_as Hup m Em. bind_inv_as Hup u1 Eu1. bind_inv_as Hup m' Em'.
  bind_inv_as Hup bf Ebf. bind_inv_as Hup u3 Eu3.
  injection Hup as _ <-.
  apply py_index_nth in Em. destruct Em as [-> _].
  set (co := n * nth k ch 0) in *.
  destruct (Z.to_nat nb) as [| [| j]] eqn:En; [lia | lia | ].
  cbn [up_blocks] in Eu1. bind_inv_as Eu1 b1 Eb1. bind_inv_as Eu1 b2 Eb2.
  apply up_blocks_run in Eu1; [ | exact Hco]. destruct Eu1 as (ext & -> & _).
  assert (Hv3 : exists tl, u3 = (((u ++ [MUpBlock b1]) ++ [MUpBlock b2]) ++ ext) ++ tl).
  { destruct (0 <? k)%nat.
    - bind_inv_as Eu3 us Eus. injection Eu3 as <-.
      exists ([MUpBlock bf] ++ [MUpsample us]).
      rewrite !app_assoc. reflexivity.
    - injection Eu3 as <-. exists [MUpBlock bf]. reflexivity. }
  destruct Hv3 as (tl & ->).
  exists (MUpBlock b1 :: MUpBlock b2 :: ext ++ tl).
  split; [rewrite <- !app_assoc; reflexivity | ].
  intros B H W t h Hmap Ht Hcu.
  cbn [repeat app up_loop isinstance_Upsample pop bind Module_call]. shape_ops.
  rewrite cat1_shape. cbn [bind].
  rewrite (UpBlock_forward_shape _ _ _ _ _ _ _ B H W t Eb1 Hco Hmap Ht). cbn [bind].
  rewrite cat1_shape. cbn [bind].
  assert (Hv : B * (co + co) / 32 * (H * W) <> 1).
  { pose proof Eb2 as Hb2. apply UpBlock_init_Ok in Hb2.
    destruct Hb2 as (res & mlp & Hres & _).
    apply ResidualBlock_init_Ok in Hres. destruct Hres as (_ & _ & _ & Hm & _).
    destruct Hmap as (HB & HH & HW & Hv).
    apply more_than_one_value; try assumption; [ | lia].
    apply double_mod_32. exact Hm. }
  rewrite (UpBlock_forward_wrong_channels _ _ _ _ _ _ _ B (co + co) H W t Eb2)
    by (try exact Hv; lia).
  reflexivity.
Qed.

End UpLevelMismatch.

Lemma last_differing (ch : list Z) :
  (exists j, (S j < length ch)%nat /\ nth j ch 0 <> nth (S j) ch 0) ->
  exists k,
    (S k < length ch)%nat /\
    nth k ch 0 <> nth (S k) ch 0 /\
    forall j, (k < j)%nat -> (S j < length ch)%nat -> nth j ch 0 = nth (S j) ch 0.
Proof.
  assert (Hgen : forall N,
            (exists j, (j < N)%nat /\ nth j ch 0 <> nth (S j) ch 0) ->
            exists k, (k < N)%nat /\ nth k ch 0 <> nth (S k) ch 0 /\
                      forall j, (k < j)%nat -> (j < N)%nat ->
                                nth j ch 0 = nth (S j) ch 0).
  { induction N as [| N IH]; intros (j & Hj & HP); [lia | ].
    destruct (Z.eq_dec (nth N ch 0) (nth (S N) ch 0)) as [Heq | Hne].
    - assert (Hj' : (j < N)%nat).
      { destruct (Nat.eq_dec j N) as [-> | Hn]; [contradiction | lia]. }
      destruct (IH (ex_intro _ j (conj Hj' HP))) as (k & Hk & HPk & Hafter).
      exists k. split; [lia | ]. split; [exact HPk | ].
      intros i Hi1 Hi2. destruct (Nat.eq_dec i N) as [-> | Hn]; [exact Heq | ].
      apply Hafter; lia.
    - exists N. split; [lia | ]. split; [exact Hne | ]. intros i Hi1 Hi2. lia. }
  intros (j & Hj & HP).
  assert (Hj' : (j < length ch - 1)%nat) by lia.
  destruct (Hgen (length ch - 1)%nat (ex_intro _ j (conj Hj' HP)))
    as (k & Hk & HPk & Hafter).
  exists k. split; [lia | ]. split; [exact HPk | ].
  intros i Hi1 Hi2. apply Hafter; lia.
Qed.

Section LevelsMismatch.

Variables (n : Z) (ch : list Z) (nb : Z) (isn : bool).
Hypothesis Hnb : 2 <= nb.
Hypothesis Hn : n <> 0.
Hypothesis Hpos : forall k, (k < length ch)%nat -> 0 < n * nth k ch 0.

Variable k : nat.
Hypothesis Hk : (S k < length ch)%nat.
Hypothesis Hdiff : nth k ch 0 <> nth (S k) ch 0.
Hypothesis Hafter :
  forall j, (k < j)%nat -> (S j < length ch)%nat -> nth j ch 0 = nth (S j) ch 0.

(** Level [k] is the innermost one whose width differs from the next: the
    down loop runs through, and the up loop raises at level [k]. *)
Lemma levels_mismatch (e : nat) :
  forall (k0 : nat), (k0 + S e = length ch)%nat -> (k0 <= k)%nat ->
  forall ci co0 dn ci' co' dn' u cu' u',
    down_levels n ch nb isn (seq k0 (S e)) ci co0 dn = Ok (ci', co', dn') ->
    up_levels n ch nb isn (rev (seq k0 (S e))) (n * nth (length ch - 1) ch 0) u
    = Ok (cu', u') ->
    exists dext uext,
      dn' = dn ++ dext /\
      u' = u ++ uext /\
      forall B hm wm t h,
        batch_of_maps B hm wm -> conditioning_fits isn (n * 4) B t ->
        exists sk,
          down_loop (torch := ShapeTorch) dext
            [B; ci; 2 ^ Z.of_nat e * hm; 2 ^ Z.of_nat e * wm] t h
          = Ok ([B; n * nth (length ch - 1) ch 0; hm; wm], sk) /\
          up_loop (torch := ShapeTorch) uext
            [B; n * nth (length ch - 1) ch 0; hm; wm] t sk
          = Raise RuntimeError.
Proof.
  assert (Hnb1 : 1 <= nb) by lia.
  induction e as [| e IH];
    intros k0 Hk0 Hle ci co0 dn ci' co' dn' u cu' u' Hdown Hup; [lia | ].
  change (seq k0 (S (S e))) with (k0 :: seq (S k0) (S e)) in Hdown, Hup.
  cbn [down_levels] in Hdown. cbn [rev] in Hup.
  bind_inv_as Hdown m Em. bind_inv_as Hdown r Er. destruct r as [ci1 dn1].
  bind_inv_as Hdown dn2 Edn2.
  apply py_index_nth in Em. destruct Em as [-> _].
  assert (Hco : 0 < n * nth k0 ch 0) by (apply Hpos; lia).
  apply down_blocks_run in Er; [ | exact Hco].
  destruct Er as (dext & -> & -> & Hrun).
  rewrite (blocks_out nb Hnb1) in *.
  replace (Z.of_nat k0 <? Z.of_nat (length ch) - 1) with true in Edn2
    by (symmetry; apply Z.ltb_lt; lia).
  bind_inv_as Edn2 ds Eds. injection Edn2 as <-.
  rewrite up_levels_app in Hup. bind_inv_as Hup r Eup. destruct r as [cu1 u1].
  set (co := n * nth k0 ch 0) in *.
  assert (Hdownrun : forall B hm wm t h sk dint,
            batch_of_maps B hm wm -> conditioning_fits isn (n * 4) B t ->
            down_loop (torch := ShapeTorch) dint
              [B; co; 2 ^ Z.of_nat e * hm; 2 ^ Z.of_nat e * wm] t
              ([B; co; 2 ^ Z.of_nat e * hm; 2 ^ Z.of_nat e * wm]
               :: repeat [B; co; 2 ^ Z.of_nat (S e) * hm; 2 ^ Z.of_nat (S e) * wm]
                    (Z.to_nat nb) ++ h)
            = Ok ([B; n * nth (length ch - 1) ch 0; hm; wm], sk) ->
            down_loop (torch := ShapeTorch) (dext ++ MDownsample ds :: dint)
              [B; ci; 2 ^ Z.of_nat (S e) * hm; 2 ^ Z.of_nat (S e) * wm] t h
            = Ok ([B; n * nth (length ch - 1) ch 0; hm; wm], sk)).
  { intros B hm wm t h sk dint Hmap Ht Hd.
    pose proof (pow2_pos e) as Hp.
    pose proof (batch_of_maps_scale B hm wm _ Hmap (pow2_pos (S e))) as Hbig.
    replace (2 ^ Z.of_nat (S e) * hm) with (2 * (2 ^ Z.of_nat e * hm)) in *
      by (rewrite pow2_succ; lia).
    replace (2 ^ Z.of_nat (S e) * wm) with (2 * (2 ^ Z.of_nat e * wm)) in *
      by (rewrite pow2_succ; lia).
    set (a := 2 ^ Z.of_nat e * hm) in *. set (b := 2 ^ Z.of_nat e * wm) in *.
    rewrite down_loop_app.
    rewrite (Hrun B (2 * a) (2 * b) t h Hbig Ht).
    cbn [bind down_loop Module_call].
    destruct Hbig as (_ & Ha2 & Hb2 & _).
    rewrite (Downsample_forward_shape _ _ B (2 * a) (2 * b) t Eds Hco Ha2 Hb2).
    rewrite !half_up_double. cbn [bind]. exact Hd. }
  destruct (Nat.eq_dec k0 k) as [-> | Hne].
  - destruct (levels_run n ch nb isn Hnb1 Hpos e (S k) ltac:(lia)
                ltac:(intros _ j Hj1 Hj2; apply Hafter; lia)
                _ _ _ _ _ _ _ _ _ Hdown Eup eq_refl)
      as (dint & uint & -> & -> & _ & -> & Hin).
    apply (up_level_mismatch n ch nb isn Hnb) in Hup; [ | exact Hco].
    destruct Hup as (uext & -> & Hfail).
    exists (dext ++ MDownsample ds :: dint), (uint ++ uext).
    split; [rewrite <- !app_assoc; reflexivity | ].
    split; [rewrite <- !app_assoc; reflexivity | ].
    intros B hm wm t h Hmap Ht.
    destruct (Hin B hm wm t
                (repeat [B; co; 2 ^ Z.of_nat (S e) * hm; 2 ^ Z.of_nat (S e) * wm]
                   (Z.to_nat nb) ++ h) Hmap Ht) as (sk & Hd & Hu).
    exists sk. split; [apply Hdownrun; assumption | ].
    rewrite up_loop_app, Hu. cbn [bind upscale].
    pose proof (pow2_pos e) as Hp.
    replace (2 * (2 ^ Z.of_nat e * hm)) with (2 ^ Z.of_nat (S e) * hm)
      by (rewrite pow2_succ; lia).
    replace (2 * (2 ^ Z.of_nat e * wm)) with (2 ^ Z.of_nat (S e) * wm)
      by (rewrite pow2_succ; lia).
    apply Hfail; try assumption.
    + apply batch_of_maps_scale; [exact Hmap | apply pow2_pos].
    + intros Heq. apply Hdiff. apply Z.mul_cancel_l in Heq; [ | exact Hn].
      symmetry. exact Heq.
  - destruct (IH (S k0) ltac:(lia) ltac:(lia) _ _ _ _ _ _ _ _ _ Hdown Eup)
      as (dint & uint & -> & -> & Hin).
    apply (up_level_run n ch nb isn Hnb1) in Hup; [ | exact Hco].
    destruct Hup as (uext & -> & _ & _).
    exists (dext ++ MDownsample ds :: dint), (uint ++ uext).
    split; [rewrite <- !app_assoc; reflexivity | ].
    split; [rewrite <- !app_assoc; reflexivity | ].
    intros B hm wm t h Hmap Ht.
    destruct (Hin B hm wm t
                ([B; co; 2 ^ Z.of_nat e * hm; 2 ^ Z.of_nat e * wm]
                 :: repeat [B; co; 2 ^ Z.of_nat (S e) * hm; 2 ^ Z.of_nat (S e) * wm]
                      (Z.to_nat nb) ++ h) Hmap Ht) as (sk & Hd & Hu).
    exists sk. split; [apply Hdownrun; assumption | ].
    rewrite up_loop_app, Hu. reflexivity.
Qed.

End LevelsMismatch.

Lemma forward_raises_when_widths_differ (ic oc n : Z) (ch : list Z) (nb : Z)
    (isn : bool) (m : DenoiserUNet) (B hm wm : Z) (t : option (list Z)) :
  DenoiserUNet_init ic oc n ch nb isn = Ok m ->
  2 <= nb ->
  0 < n -> Forall (fun c => 0 < c) ch ->
  (exists j, (S j < length ch)%nat /\ nth j ch 0 <> nth (S j) ch 0) ->
  batch_of_maps B hm wm ->
  timestep_fits isn B t ->
  forward (torch := ShapeTorch) m
    [B; ic; 2 ^ Z.of_nat (length ch - 1) * hm; 2 ^ Z.of_nat (length ch - 1) * wm] t
  = Raise RuntimeError.
Proof.
  intros Hinit Hnb Hnpos Hchpos Hex Hmap Ht.
  assert (Hn0 : n <> 0) by lia.
  pose proof (widths_positive n ch Hnpos Hchpos) as Hpos.
  pose proof Hmap as (_ & Hhm & Hwm & _).
  apply last_differing in Hex. destruct Hex as (k & Hk & Hdiff & Hafter).
  apply DenoiserUNet_init_parts in Hinit.
  destruct Hinit as (Hproj & Hn & Hte & ci & co & ci' & Hdown & Hmid & Hup & Hfin).
  assert (HL : exists e, length ch = S e).
  { destruct ch as [| c ch']; [cbn in Hk; lia | ]. exists (length ch'). reflexivity. }
  destruct HL as [e HL]. rewrite HL in Hdown, Hup.
  assert (HLe : (length ch - 1)%nat = e) by lia.
  assert (Hco : co = n * nth (length ch - 1) ch 0).
  { rewrite HLe. rewrite seq_S in Hdown.
    apply down_levels_last_width in Hdown. exact Hdown. }
  subst co.
  assert (Hn32 : n mod 32 = 0).
  { cbn [seq] in Hdown.
    assert (Hnb1 : 1 <= nb) by lia.
    apply (down_levels_first_width _ _ _ _ _ _ _ _ _ _ Hnb1 Hdown). }
  rewrite HLe.
  destruct (levels_mismatch n ch nb isn Hnb Hn0 Hpos k Hk Hdiff Hafter e 0
              ltac:(lia) ltac:(lia) _ _ _ _ _ _ _ _ _ Hdown Hup)
    as (dext & uext & Hd & Hu & Hrun).
  cbn [app] in Hd, Hu.
  destruct (forward_conditioning n isn m B t Hn Hte Hn32 Ht) as (t' & Hcond & Hfit).
  pose proof (pow2_pos e) as Hp.
  assert (Hmid0 : 0 < n * nth (length ch - 1) ch 0) by (apply Hpos; lia).
  set (H := 2 ^ Z.of_nat e * hm) in *. set (W := 2 ^ Z.of_nat e * wm) in *.
  assert (HH : 0 < H) by (unfold H; nia).
  assert (HW : 0 < W) by (unfold W; nia).
  destruct (Hrun B hm wm t' [[B; n; H; W]] Hmap Hfit) as (sk & Hdl & Hul).
  unfold forward, forward_skips. rewrite Hcond. cbn [bind].
  rewrite Hproj, Hd, Hu. shape_ops. unfold conv3x3.
  rewrite conv2d_3x3_shape by assumption. cbn [bind].
  fold H W in Hdl. rewrite Hdl. cbn [bind].
  rewrite (MiddleBlock_forward_shape _ _ _ _ B hm wm t' Hmid Hmid0 Hmap)
    by (left; reflexivity).
  cbn [bind]. rewrite Hul. reflexivity.
Qed.

(** ** What the constructor puts in the stacks *)

Section StackMembers.

Variables (n : Z) (ch : list Z) (nb : Z) (isn : bool).

Lemma down_blocks_members (k i : nat) (ci co : Z) (dn : list Module_)
    (ci' : Z) (dn' : list Module_) :
  down_blocks n isn k i ci co dn = Ok (ci', dn') ->
  Forall (down_member isn) dn ->
  Forall (down_member isn) dn' /\
  length (filter isinstance_Downsample dn')
  = length (filter isinstance_Downsample dn).
Proof.
  revert ci dn. induction k as [| k IH]; intros ci dn H HF; cbn [down_blocks] in H.
  - injection H as _ <-. split; [exact HF | reflexivity].
  - bind_inv_as H b Eb. apply IH in H.
    + destruct H as [HF' Hc]. split; [exact HF' | ].
      rewrite Hc, filter_app, length_app. cbn. lia.
    + apply Forall_app. split; [exact HF | ].
      constructor; [ | constructor]. cbn [down_member].
      apply DownBlock_init_Ok in Eb. destruct Eb as (res & mlp & Hres & _ & ->).
      cbn [db_res]. apply (ResidualBlock_init_is_noise _ _ _ _ _ _ Hres).
Qed.

Lemma down_levels_members (levels : list nat) (ci co : Z) (dn : list Module_)
    (ci' co' : Z) (dn' : list Module_) :
  down_levels n ch nb isn levels ci co dn = Ok (ci', co', dn') ->
  Forall (down_member isn) dn ->
  Forall (down_member isn) dn' /\
  length (filter isinstance_Downsample dn')
  = (length (filter isinstance_Downsample dn)
     + length (downsampled (length ch) levels))%nat.
Proof.
  revert ci co dn. induction levels as [| i levels IH]; intros ci co dn H HF;
    cbn [down_levels] in H.
  - injection H as _ _ <-. split; [exact HF | ]. cbn. lia.
  - bind_inv_as H m Em. bind_inv_as H r Er. destruct r as [ci1 dn1].
    bind_inv_as H dn2 Edn2.
    destruct (down_blocks_members _ _ _ _ _ _ _ Er HF) as [HF1 Hc1].
    unfold downsampled. cbn [filter].
    destruct (Z.of_nat i <? Z.of_nat (length ch) - 1).
    + bind_inv_as Edn2 ds Eds. injection Edn2 as <-.
      apply IH in H.
      * destruct H as [HF' Hc]. split; [exact HF' | ].
        rewrite Hc, filter_app, length_app, Hc1. unfold downsampled. cbn. lia.
      * apply Forall_app. split; [exact HF1 | ]. repeat constructor.
    + injection Edn2 as <-. apply IH in H; [ | exact HF1].
      destruct H as [HF' Hc]. split; [exact HF' | ].
      rewrite Hc, Hc1. unfold downsampled. lia.
Qed.

Lemma up_blocks_members (k i : nat) (cu co : Z) (u u' : list Module_) :
  up_blocks n isn k i cu co u = Ok u' ->
  Forall (up_member isn) u ->
  Forall (up_member isn) u' /\
  length (filter isinstance_Upsample u') = length (filter isinstance_Upsample u).
Proof.
  revert u. induction k as [| k IH]; intros u H HF; cbn [up_blocks] in H.
  - injection H as <-. split; [exact HF | reflexivity].
  - bind_inv_as H b Eb. apply IH in H.
    + destruct H as [HF' Hc]. split; [exact HF' | ].
      rewrite Hc, filter_app, length_app. cbn. lia.
    + apply Forall_app. split; [exact HF | ].
      constructor; [ | constructor]. cbn [up_member].
      apply UpBlock_init_Ok in Eb. destruct Eb as (res & mlp & Hres & _ & ->).
      cbn [ub_res]. apply (ResidualBlock_init_is_noise _ _ _ _ _ _ Hres).
Qed.

Lemma up_levels_members (levels : list nat) (cu : Z) (u : list Module_)
    (cu' : Z) (u' : list Module_) :
  up_levels n ch nb isn levels cu u = Ok (cu', u') ->
  Forall (up_member isn) u ->
  Forall (up_member isn) u' /\
  length (filter isinstance_Upsample u')
  = (length (filter isinstance_Upsample u)
     + length (filter (fun i => (0 <? i)%nat) levels))%nat.
Proof.
  revert cu u. induction levels as [| i levels IH]; intros cu u H HF;
    cbn [up_levels] in H.
  - injection H as _ <-. split; [exact HF | ]. cbn. lia.
  - bind_inv_as H m Em. bind_inv_as H u1 Eu1. bind_inv_as H m' Em'.
    bind_inv_as H bf Ebf. bind_inv_as H u3 Eu3.
    destruct (up_blocks_members _ _ _ _ _ _ Eu1 HF) as [HF1 Hc1].
    assert (HFf : Forall (up_member isn) (u1 ++ [MUpBlock bf])).
    { apply Forall_app. split; [exact HF1 | ].
      constructor; [ | constructor]. cbn [up_member].
      apply UpBlock_init_Ok in Ebf. destruct Ebf as (res & mlp & Hres & _ & ->).
      cbn [ub_res]. apply (ResidualBlock_init_is_noise _ _ _ _ _ _ Hres). }
    cbn [filter]. destruct (0 <? i)%nat.
    + bind_inv_as Eu3 us Eus. injection Eu3 as <-.
      apply IH in H.
      * destruct H as [HF' Hc]. split; [exact HF' | ].
        rewrite Hc, !filter_app, !length_app, Hc1. cbn. lia.
      * apply Forall_app. split; [exact HFf | ]. repeat constructor.
    + injection Eu3 as <-. apply IH in H; [ | exact HFf].
      destruct H as [HF' Hc]. split; [exact HF' | ].
      rewrite Hc, filter_app, length_app, Hc1. cbn. lia.
Qed.

End StackMembers.

Lemma positive_levels (L : nat) :
  length (filter (fun i => (0 <? i)%nat) (rev (seq 0 L))) = (L - 1)%nat.
Proof.
  rewrite filter_rev, length_rev.
  destruct L as [| e]; [reflexivity | ].
  cbn [seq filter Nat.ltb Nat.leb].
  rewrite forallb_filter_id.
  - rewrite length_seq. lia.
  - apply forallb_forall. intros i Hi. apply in_seq in Hi.
    destruct i; [lia | reflexivity].
Qed.

Lemma DenoiserUNet_init_base_width (ic oc n : Z) (ch : list Z) (nb : Z)
    (isn : bool) (m : DenoiserUNet) :
  DenoiserUNet_init ic oc n ch nb isn = Ok m ->
  ch = [] \/ 1 <= nb ->
  n mod 32 = 0.
Proof.
  intros Hinit Hcase. apply DenoiserUNet_init_parts in Hinit.
  destruct Hinit as (_ & _ & _ & ci & co & ci' & Hdown & Hmid & _).
  destruct ch as [| c ch'].
  - cbn in Hdown. injection Hdown as _ <- _.
    apply MiddleBlock_init_Ok in Hmid. destruct Hmid as (r1 & _ & H1 & _).
    apply ResidualBlock_init_Ok in H1. apply H1.
  - destruct Hcase as [Hc | Hnb]; [discriminate | ].
    cbn [length seq] in Hdown.
    apply (down_levels_first_width _ _ _ _ _ _ _ _ _ _ Hnb Hdown).
Qed.

Lemma forward_needs_timestep {torch : Torch} (m : DenoiserUNet) (x : Tensor) :
  is_noise m = true -> returns (forward m x None) = false.
Proof.
  intros H. unfold forward, forward_skips. rewrite H.
  destruct (getattr (time_emb m)) as [te | e]; cbn [bind]; [ | reflexivity].
  unfold TimeEmbedding_forward.
  destruct (te_n_channels te / 8 - 1 =? 0); reflexivity.
Qed.

Lemma conv2d_wrong_channels (c : Conv2d) (B ch H W : Z) :
  ch <> conv_in c -> Shape.conv2d c [B; ch; H; W] = Raise RuntimeError.
Proof.
  intros Hc. unfold Shape.conv2d, Shape.conv2d_map.
  destruct (conv_out c <? 1); [reflexivity | ].
  apply Z.eqb_neq in Hc. rewrite Hc. reflexivity.
Qed.

Lemma forward_wrong_input_channels (ic oc n : Z) (ch : list Z) (nb : Z)
    (isn : bool) (m : DenoiserUNet) (B c H W : Z) (t : option (list Z)) :
  DenoiserUNet_init ic oc n ch nb isn = Ok m ->
  c <> ic ->
  returns (forward (torch := ShapeTorch) m [B; c; H; W] t) = false.
Proof.
  intros Hinit Hc. apply DenoiserUNet_init_parts in Hinit.
  destruct Hinit as (Hproj & _).
  unfold forward, forward_skips.
  match goal with
  | |- returns (bind (bind ?c _) _) = false => destruct c as [t' | e]
  end; cbn [bind]; [ | reflexivity].
  rewrite Hproj. shape_ops.
  rewrite conv2d_wrong_channels by exact Hc. reflexivity.
Qed.

Lemma Downsample_Upsample_round_trip (C : Z) (d : Downsample) (u : Upsample)
    (B H W : Z) (t : option (list Z)) :
  Downsample_init C = Ok d ->
  Upsample_init C = Ok u ->
  0 < C -> 0 < H -> 0 < W ->
  (x <- Downsample_forward (torch := ShapeTorch) d [B; C; H; W] t ;;
   Upsample_forward u x t)
  = Ok [B; C; 2 * ((H + 1) / 2); 2 * ((W + 1) / 2)].
Proof.
  intros Hd Hu HC HH HW.
  rewrite (Downsample_forward_shape _ _ B H W t Hd HC HH HW). cbn [bind].
  assert (H1 : 0 < (H + 1) / 2) by (apply Z.div_str_pos; lia).
  assert (H2 : 0 < (W + 1) / 2) by (apply Z.div_str_pos; lia).
  apply (Upsample_forward_shape _ _ B _ _ t Hu HC H1 H2).
Qed.

Lemma group_norm_single_value (g : GroupNorm) (B c H W : Z) :
  B * c / gn_num_groups g * (H * W) = 1 ->
  Shape.group_norm g [B; c; H; W] = Raise ValueError.
Proof.
  intros Hv. unfold Shape.group_norm. cbn [fold_right].
  rewrite Z.mul_1_r, Hv. reflexivity.
Qed.

Lemma ResidualBlock_forward_single_value {ci co tc : Z} {p : Q} {isn : bool}
    {rb : ResidualBlock} (B c H W : Z) (t : option (list Z)) :
  ResidualBlock_init ci co tc p isn = Ok rb ->
  B * c / 32 * (H * W) = 1 ->
  ResidualBlock_forward (torch := ShapeTorch) rb [B; c; H; W] t
  = Raise ValueError.
Proof.
  intros Hinit Hv.
  apply ResidualBlock_init_Ok in Hinit. destruct Hinit as (-> & _).
  unfold ResidualBlock_forward. cbn [rb_norm1]. shape_ops.
  rewrite group_norm_single_value by exact Hv. reflexivity.
Qed.

(** * Further properties of the modules *)



(** X2: a [ResidualBlock] never returns on a feature map whose channel
    count is not the [in_channels] it was built for.  The first group
    normalisation raises: [ValueError] when the map holds a single value per
    group ([(B * c // 32) * H * W = 1]), which is checked first, and
    [RuntimeError] for the channel count otherwise. *)
Theorem ResidualBlock_rejects_other_widths (ci co tc : Z) (p : Q) (isn : bool)
    (rb : ResidualBlock) (B c H W : Z) (t : option (list Z)) :
  ResidualBlock_init ci co tc p isn = Ok rb ->
  c <> ci ->
  ResidualBlock_forward (torch := ShapeTorch) rb [B; c; H; W] t
  = Raise (if B * c / 32 * (H * W) =? 1 then ValueError else RuntimeError).
Proof.
  intros Hinit Hc.
  destruct (B * c / 32 * (H * W) =? 1) eqn:Ev.
  - apply Z.eqb_eq in Ev.
    apply (ResidualBlock_forward_single_value B c H W t Hinit Ev).
  - apply Z.eqb_neq in Ev.
    apply (ResidualBlock_forward_wrong_channels _ _ _ _ _ _ B c H W t Hinit Hc Ev).
Qed.

Lemma ResidualBlock_rejects_other_widths_witness :
  exists rb,
    ResidualBlock_init 192 64 128 (1 # 10) true = Ok rb /\
    ResidualBlock_forward (torch := ShapeTorch) rb [1; 128; 16; 16] (Some [1; 128])
    = Raise RuntimeError /\
    ResidualBlock_forward (torch := ShapeTorch) rb [1; 32; 1; 1] (Some [1; 128])
    = Raise ValueError.
Proof.
  eexists. split; [vm_compute; reflexivity | ]. split.
  - apply (ResidualBlock_rejects_other_widths 192 64 128 (1 # 10) true _
             1 128 16 16).
    + vm_compute. reflexivity.
    + lia.
  - apply (ResidualBlock_rejects_other_widths 192 64 128 (1 # 10) true _
             1 32 1 1).
    + vm_compute. reflexivity.
    + lia.
Defined.

(** X3: a conditioned [ResidualBlock] called with [t = None] never returns,
    whatever the tensor library; on a feature map of the right width with
    more than one value per channel ([B * H * W > 1]) the exception is the
    [TypeError] of applying the activation to [None]. *)
Theorem ResidualBlock_conditioned_needs_embedding (ci co tc : Z) (p : Q)
    (rb : ResidualBlock) :
  ResidualBlock_init ci co tc p true = Ok rb ->
  (forall (torch : Torch) (x : Tensor),
     returns (ResidualBlock_forward rb x None) = false) /\
  (forall B H W, 0 < co -> 0 < B -> 0 < H -> 0 < W -> 1 < B * (H * W) ->
     ResidualBlock_forward (torch := ShapeTorch) rb [B; ci; H; W] None
     = Raise TypeError).
Proof.
  intros Hinit. split.
  - intros torch x. apply ResidualBlock_forward_needs_conditioning.
    apply (ResidualBlock_init_is_noise _ _ _ _ _ _ Hinit).
  - intros B H W Hco HB HH HW Hv.
    apply (ResidualBlock_forward_None_TypeError _ _ _ _ _ B H W Hinit Hco
             (conj HB (conj HH (conj HW Hv)))).
Qed.

Lemma ResidualBlock_conditioned_needs_embedding_witness :
  exists rb,
    ResidualBlock_init 32 32 128 (1 # 10) true = Ok rb /\
    ResidualBlock_forward (torch := ShapeTorch) rb [1; 32; 64; 64] None
    = Raise TypeError.
Proof.
  eexists. split; [vm_compute; reflexivity | ].
  refine (proj2 (ResidualBlock_conditioned_needs_embedding 32 32 128 (1 # 10) _ _)
            1 64 64 _ _ _ _ _).
  - vm_compute. reflexivity.
  - lia.
  - lia.
  - lia.
  - lia.
  - lia.
Defined.

(** X4: on a feature map with more than one value per channel
    ([B * H * W > 1]), a conditioned [ResidualBlock] raises [RuntimeError]
    when the batch size of the embedding is neither that of the map nor 1:
    the in-place add cannot broadcast into the map. *)
Theorem ResidualBlock_rejects_other_batches (ci co tc : Z) (p : Q)
    (rb : ResidualBlock) (B Bt H W : Z) :
  ResidualBlock_init ci co tc p true = Ok rb ->
  0 < co -> 0 < B -> 0 < H -> 0 < W ->
  1 < B * (H * W) ->
  Bt <> B -> Bt <> 1 ->
  ResidualBlock_forward (torch := ShapeTorch) rb [B; ci; H; W] (Some [Bt; tc])
  = Raise RuntimeError.
Proof.
  intros Hinit Hco HB HH HW Hv H1 H2.
  apply (ResidualBlock_forward_batch_mismatch _ _ _ _ _ B Bt H W Hinit Hco
           (conj HB (conj HH (conj HW Hv))) H1 H2).
Qed.

Lemma ResidualBlock_rejects_other_batches_witness :
  exists rb,
    ResidualBlock_init 32 32 128 (1 # 10) true = Ok rb /\
    ResidualBlock_forward (torch := ShapeTorch) rb [1; 32; 64; 64] (Some [2; 128])
    = Raise RuntimeError.
Proof.
  eexists. split; [vm_compute; reflexivity | ].
  apply (ResidualBlock_rejects_other_batches 32 32 128 (1 # 10)); try lia.
  vm_compute. reflexivity.
Defined.

(** X5: a [DownBlock] built for [ci] and [co] channels maps a feature map
    [[B, ci, H, W]] with more than one value per channel ([B * H * W > 1])
    to [[B, co, H, W]] for every value of its [flag], with or without the
    attention stage. *)
Theorem DownBlock_maps_channels (ci co tc flag : Z) (isn : bool) (b : DownBlock)
    (B H W : Z) (t : option (list Z)) :
  DownBlock_init ci co tc flag isn = Ok b ->
  0 < B -> 0 < ci -> 0 < co -> 0 < H -> 0 < W ->
  1 < B * (H * W) ->
  conditioning_fits isn tc B t ->
  DownBlock_forward (torch := ShapeTorch) b [B; ci; H; W] t = Ok [B; co; H; W].
Proof.
  intros Hinit HB _ Hco HH HW Hv Ht.
  apply (DownBlock_forward_shape _ _ _ _ _ _ B H W t Hinit Hco
           (conj HB (conj HH (conj HW Hv))) Ht).
Qed.

Lemma DownBlock_maps_channels_witness :
  exists b,
    DownBlock_init 32 64 128 1 false = Ok b /\
    DownBlock_forward (torch := ShapeTorch) b [2; 32; 32; 32] None
    = Ok [2; 64; 32; 32].
Proof.
  eexists. split; [vm_compute; reflexivity | ].
  apply (DownBlock_maps_channels 32 64 128 1 false); try lia.
  - vm_compute. reflexivity.
  - left. reflexivity.
Defined.

(** X6: an [UpBlock] built for [ci] and [co] channels returns
    [[B, co, H, W]] on a concatenation [[B, ci + co, H, W]] with more than
    one value per channel ([B * H * W > 1]), for every value of its flags.
    On any other channel count [c] it raises: [ValueError] when the map
    holds a single value per group ([(B * c // 32) * H * W = 1]),
    [RuntimeError] otherwise. *)
Theorem UpBlock_takes_concatenation (ci co tc flag2 : Z) (isn : bool)
    (flag1 : Z) (b : UpBlock) (B H W : Z) (t : option (list Z)) :
  UpBlock_init ci co tc flag2 isn flag1 = Ok b ->
  0 < B -> 0 < ci -> 0 < co -> 0 < H -> 0 < W ->
  1 < B * (H * W) ->
  conditioning_fits isn tc B t ->
  UpBlock_forward (torch := ShapeTorch) b [B; ci + co; H; W] t
  = Ok [B; co; H; W] /\
  forall c, c <> ci + co ->
    UpBlock_forward (torch := ShapeTorch) b [B; c; H; W] t
    = Raise (if B * c / 32 * (H * W) =? 1 then ValueError else RuntimeError).
Proof.
  intros Hinit HB _ Hco HH HW Hv Ht. split.
  - apply (UpBlock_forward_shape _ _ _ _ _ _ _ B H W t Hinit Hco
             (conj HB (conj HH (conj HW Hv))) Ht).
  - intros c Hc. destruct (B * c / 32 * (H * W) =? 1) eqn:Ev.
    + apply Z.eqb_eq in Ev.
      apply UpBlock_init_Ok in Hinit.
      destruct Hinit as (res & mlp & Hres & _ & ->).
      unfold UpBlock_forward. cbn [ub_res].
      rewrite (ResidualBlock_forward_single_value B c H W t Hres Ev).
      reflexivity.
    + apply Z.eqb_neq in Ev.
      apply (UpBlock_forward_wrong_channels _ _ _ _ _ _ _ B c H W t Hinit Hc Ev).
Qed.

Lemma UpBlock_takes_concatenation_witness :
  exists b,
    UpBlock_init 128 64 128 2 true 0 = Ok b /\
    UpBlock_forward (torch := ShapeTorch) b [1; 128 + 64; 16; 16] (Some [1; 128])
    = Ok [1; 64; 16; 16] /\
    UpBlock_forward (torch := ShapeTorch) b [1; 128; 16; 16] (Some [1; 128])
    = Raise RuntimeError.
Proof.
  eexists. split; [vm_compute; reflexivity | ].
  assert (H : conditioning_fits true 128 1 (Some [1; 128])).
  { right. exists 1. split; [reflexivity | left; reflexivity]. }
  pose proof (UpBlock_takes_concatenation 128 64 128 2 true 0 _ 1 16 16
                (Some [1; 128]) ltac:(vm_compute; reflexivity)
                ltac:(lia) ltac:(lia) ltac:(lia) ltac:(lia) ltac:(lia)
                ltac:(lia) H)
    as [Hok Hbad].
  split; [exact Hok | ]. apply (Hbad 128). lia.
Defined.

(** X7: a [MiddleBlock] returns a feature map of the shape of its input at
    every height and width, not only at the size 16 its paddings were
    computed for, provided the map holds more than one value per channel
    ([B * H * W > 1]). *)
Theorem MiddleBlock_preserves_shape (n tc : Z) (isn : bool) (mb : MiddleBlock)
    (B H W : Z) (t : option (list Z)) :
  MiddleBlock_init n tc isn = Ok mb ->
  0 < B -> 0 < n -> 0 < H -> 0 < W ->
  1 < B * (H * W) ->
  conditioning_fits isn tc B t ->
  MiddleBlock_forward (torch := ShapeTorch) mb [B; n; H; W] t = Ok [B; n; H; W].
Proof.
  intros Hinit HB Hn HH HW Hv Ht.
  apply (MiddleBlock_forward_shape _ _ _ _ B H W t Hinit Hn
           (conj HB (conj HH (conj HW Hv))) Ht).
Qed.

Lemma MiddleBlock_preserves_shape_witness :
  exists mb,
    MiddleBlock_init 128 128 false = Ok mb /\
    MiddleBlock_forward (torch := ShapeTorch) mb [1; 128; 5; 7] None
    = Ok [1; 128; 5; 7].
Proof.
  eexists. split; [vm_compute; reflexivity | ].
  apply (MiddleBlock_preserves_shape 128 128 false); try lia.
  - vm_compute. reflexivity.
  - left. reflexivity.
Defined.

(** X8: [TimeEmbedding(n)] maps a batch [[Bt]] of timesteps to an embedding
    [[Bt, n]] whenever [half_dim = n // 8] is not 1 and the [2 * half_dim]
    sinusoidal features fill the [n // 4] inputs of the first linear
    layer. *)
Theorem TimeEmbedding_maps_batch (n : Z) (te : TimeEmbedding) (Bt : Z) :
  TimeEmbedding_init n = Ok te ->
  0 < Bt ->
  n / 8 <> 1 ->
  2 * (n / 8) = n / 4 ->
  TimeEmbedding_forward (torch := ShapeTorch) te (Some [Bt]) = Ok [Bt; n].
Proof.
  intros Hinit _ H1 H2.
  apply (TimeEmbedding_forward_shape n te Bt Hinit H1 H2).
Qed.

Lemma TimeEmbedding_maps_batch_witness :
  exists te,
    TimeEmbedding_init 128 = Ok te /\
    TimeEmbedding_forward (torch := ShapeTorch) te (Some [1]) = Ok [1; 128].
Proof.
  eexists. split; [vm_compute; reflexivity | ].
  apply (TimeEmbedding_maps_batch 128).
  - vm_compute. reflexivity.
  - lia.
  - vm_compute. discriminate.
  - reflexivity.
Defined.

(** X9: when [n // 4] is odd, so that [2 * (n // 8)] falls short of it,
    [TimeEmbedding(n).forward] raises.  When [n // 8 = 1] ([n] from 12 to
    15) it is the [ZeroDivisionError] of dividing by [half_dim - 1];
    otherwise it is the [RuntimeError] of the first linear layer, built for
    [n // 4] features and given [2 * (n // 8)]. *)
Theorem TimeEmbedding_rejects_odd_quarter (n : Z) (te : TimeEmbedding) (Bt : Z) :
  TimeEmbedding_init n = Ok te ->
  2 * (n / 8) <> n / 4 ->
  TimeEmbedding_forward (torch := ShapeTorch) te (Some [Bt])
  = Raise (if n / 8 =? 1 then ZeroDivisionError else RuntimeError).
Proof.
  intros Hinit H2. destruct (n / 8 =? 1) eqn:E1.
  - apply Z.eqb_eq in E1. apply TimeEmbedding_forward_half_dim_1.
    apply TimeEmbedding_init_Ok in Hinit. destruct Hinit as (-> & _).
    exact E1.
  - apply Z.eqb_neq in E1.
    apply (TimeEmbedding_forward_odd_quarter n te Bt Hinit E1 H2).
Qed.

Lemma TimeEmbedding_rejects_odd_quarter_witness :
  (exists te,
     TimeEmbedding_init 20 = Ok te /\
     TimeEmbedding_forward (torch := ShapeTorch) te (Some [1])
     = Raise RuntimeError) /\
  (exists te,
     TimeEmbedding_init 12 = Ok te /\
     TimeEmbedding_forward (torch := ShapeTorch) te (Some [1])
     = Raise ZeroDivisionError).
Proof.
  split.
  - eexists. split; [vm_compute; reflexivity | ].
    apply (TimeEmbedding_rejects_odd_quarter 20).
    + vm_compute. reflexivity.
    + vm_compute. discriminate.
  - eexists. split; [vm_compute; reflexivity | ].
    apply (TimeEmbedding_rejects_odd_quarter 12).
    + vm_compute. reflexivity.
    + vm_compute. discriminate.
Defined.

(** X10: a model with conditioning enabled never returns from
    [forward(x, None)], whatever the tensor library: the timestep embedding
    is computed before anything else and raises. *)
Theorem forward_conditioned_rejects_None (torch : Torch) (m : DenoiserUNet)
    (x : Tensor) :
  is_noise m = true -> returns (forward m x None) = false.
Proof.
  apply forward_needs_timestep.
Qed.

Lemma forward_conditioned_rejects_None_witness :
  exists m,
    DenoiserUNet_init 2 1 32 [1; 2; 2; 4] 1 true = Ok m /\
    returns (forward (torch := ShapeTorch) m [1; 2; 64; 64] None) = false.
Proof.
  eexists. split; [vm_compute; reflexivity | ].
  apply (forward_conditioned_rejects_None ShapeTorch). reflexivity.
Defined.

(** X11: at stride 1 the padding [get_pad] returns does not depend on the
    input size it is given: for every size from 1 to 64, kernel size from 1
    to 7 and dilation from 1 to 16 it is [atrous * (ksize - 1) // 2]. *)
Theorem get_pad_stride_1_ignores_size (in_ ksize atrous : Z) :
  1 <= in_ <= 64 -> 1 <= ksize <= 7 -> 1 <= atrous <= 16 ->
  get_pad in_ ksize 1 atrous = Ok (atrous * (ksize - 1) / 2).
Proof.
  intros Hi Hk Hd. pose proof get_pad_stride_1_evaluated as H.
  rewrite forallb_forall in H.
  specialize (H in_ (In_Z_range 1 64 in_ ltac:(lia))).
  rewrite forallb_forall in H.
  specialize (H ksize (In_Z_range 1 7 ksize ltac:(lia))).
  rewrite forallb_forall in H.
  specialize (H atrous (In_Z_range 1 16 atrous ltac:(lia))).
  apply is_Ok_eq. exact H.
Qed.

Lemma get_pad_stride_1_ignores_size_witness :
  get_pad 16 3 1 8 = Ok (8 * (3 - 1) / 2).
Proof.
  apply (get_pad_stride_1_ignores_size 16 3 8); lia.
Defined.

(** X12: on an input of size [i] from 1 to 64, a convolution of stride [s]
    from 1 to 4, kernel size [k] from 1 to 7 and dilation [d] from 1 to 4
    that is padded by [get_pad(i, k, s, d)] returns the size [ceil(i / s)],
    provided the padding needed,
    [(ceil(i / s) - 1) * s + d * (k - 1) + 1 - i], is even and not
    negative. *)
Theorem get_pad_gives_same_padding (i k s d q : Z) :
  1 <= i <= 64 -> 1 <= s <= 4 -> 1 <= k <= 7 -> 1 <= d <= 4 ->
  0 <= q ->
  (- (- i / s) - 1) * s + d * (k - 1) + 1 - i = 2 * q ->
  get_pad i k s d = Ok q /\
  Shape.conv_size i k s q d = Ok (- (- i / s)).
Proof.
  intros Hi Hs Hk Hd Hq HN. split.
  - pose proof get_pad_even_evaluated as H.
    rewrite forallb_forall in H.
    specialize (H i (In_Z_range 1 64 i ltac:(lia))).
    rewrite forallb_forall in H.
    specialize (H s (In_Z_range 1 4 s ltac:(lia))).
    rewrite forallb_forall in H.
    specialize (H k (In_Z_range 1 7 k ltac:(lia))).
    rewrite forallb_forall in H.
    specialize (H d (In_Z_range 1 4 d ltac:(lia))).
    cbv zeta in H. rewrite HN in H.
    replace (0 <=? 2 * q) with true in H by (symmetry; apply Z.leb_le; lia).
    replace (Z.even (2 * q)) with true in H
      by (symmetry; apply Z.even_spec; exists q; reflexivity).
    cbn [andb] in H.
    replace (2 * q / 2) with q in H
      by (rewrite Z.mul_comm, Z.div_mul; lia).
    apply is_Ok_eq. exact H.
  - apply conv_size_ceil; lia.
Qed.

Lemma get_pad_gives_same_padding_witness :
  get_pad 64 4 2 1 = Ok 1 /\ Shape.conv_size 64 4 2 1 1 = Ok 32.
Proof.
  apply (get_pad_gives_same_padding 64 4 2 1 1); try lia. reflexivity.
Defined.

(** X13: [Downsample] rounds up: built for [C > 0] channels, it maps
    [[B, C, H, W]] to [[B, C, (H + 1) // 2, (W + 1) // 2]]; followed by
    [Upsample] it gives the input its shape back exactly when [H] and [W]
    are even. *)
Theorem Downsample_rounds_up (C : Z) (d : Downsample) (u : Upsample)
    (B H W : Z) (t : option (list Z)) :
  Downsample_init C = Ok d ->
  Upsample_init C = Ok u ->
  0 < C -> 0 < H -> 0 < W ->
  Downsample_forward (torch := ShapeTorch) d [B; C; H; W] t
  = Ok [B; C; (H + 1) / 2; (W + 1) / 2] /\
  ((x <- Downsample_forward (torch := ShapeTorch) d [B; C; H; W] t ;;
    Upsample_forward u x t) = Ok [B; C; H; W]
   <-> Z.even H = true /\ Z.even W = true).
Proof.
  intros Hd Hu HC HH HW. split.
  - apply (Downsample_forward_shape _ _ B H W t Hd HC HH HW).
  - rewrite (Downsample_Upsample_round_trip _ _ _ B H W t Hd Hu HC HH HW).
    rewrite <- !double_half_up. split.
    + intros Heq. injection Heq as H1 H2. split; assumption.
    + intros [H1 H2]. rewrite H1, H2. reflexivity.
Qed.

Lemma Downsample_rounds_up_witness :
  exists d u,
    Downsample_init 32 = Ok d /\
    Upsample_init 32 = Ok u /\
    Downsample_forward (torch := ShapeTorch) d [1; 32; 65; 64] None
    = Ok [1; 32; 33; 32] /\
    (x <- Downsample_forward (torch := ShapeTorch) d [1; 32; 65; 64] None ;;
     Upsample_forward u x None) <> Ok [1; 32; 65; 64].
Proof.
  eexists. eexists.
  split; [vm_compute; reflexivity | ]. split; [vm_compute; reflexivity | ].
  pose proof (Downsample_rounds_up 32 _ _ 1 65 64 None
                ltac:(vm_compute; reflexivity) ltac:(vm_compute; reflexivity)
                ltac:(lia) ltac:(lia) ltac:(lia)) as [Hd Hrt].
  split; [exact Hd | ].
  intros Heq. apply Hrt in Heq. destruct Heq as [He _]. discriminate He.
Defined.

(** * Further properties of the model *)

(** X14: the constructor raises unless [n_channels] is a multiple of 32,
    the group count of [Normalize], for every configuration with at least
    one block per resolution or with no resolution at all. *)
Theorem DenoiserUNet_init_needs_multiple_of_32 (ic oc n : Z) (ch : list Z)
    (nb : Z) (isn : bool) :
  ch = [] \/ 1 <= nb ->
  n mod 32 <> 0 ->
  returns (DenoiserUNet_init ic oc n ch nb isn) = false.
Proof.
  intros Hcase Hn.
  destruct (DenoiserUNet_init ic oc n ch nb isn) as [m | e] eqn:E; [ | reflexivity].
  exfalso. apply Hn. apply (DenoiserUNet_init_base_width _ _ _ _ _ _ _ E Hcase).
Qed.

Lemma DenoiserUNet_init_needs_multiple_of_32_witness :
  returns (DenoiserUNet_init 2 1 48 [1; 2; 2; 4] 2 true) = false.
Proof.
  apply DenoiserUNet_init_needs_multiple_of_32.
  - right. lia.
  - vm_compute. discriminate.
Defined.

(** X15: in a constructed model the down stack holds only [DownBlock]s and
    [Downsample]s and the up stack only [UpBlock]s and [Upsample]s, every
    block carries the model's conditioning flag, and there are as many
    [Upsample]s as [Downsample]s, one fewer than resolution levels. *)
Theorem DenoiserUNet_init_stacks (ic oc n : Z) (ch : list Z) (nb : Z)
    (isn : bool) (m : DenoiserUNet) :
  DenoiserUNet_init ic oc n ch nb isn = Ok m ->
  Forall (down_member isn) (down m) /\
  Forall (up_member isn) (up m) /\
  length (filter isinstance_Downsample (down m)) = (length ch - 1)%nat /\
  length (filter isinstance_Upsample (up m)) = (length ch - 1)%nat.
Proof.
  intros Hinit. apply DenoiserUNet_init_parts in Hinit.
  destruct Hinit as (_ & _ & _ & ci & co & ci' & Hdown & _ & Hup & _).
  apply down_levels_members in Hdown; [ | constructor].
  apply up_levels_members in Hup; [ | constructor].
  destruct Hdown as [HFd Hcd], Hup as [HFu Hcu].
  rewrite downsampled_all_levels in Hcd. rewrite positive_levels in Hcu.
  repeat split; assumption.
Qed.

Lemma DenoiserUNet_init_stacks_witness :
  exists m,
    DenoiserUNet_init 2 1 32 [1; 2; 2; 4] 2 true = Ok m /\
    Forall (down_member true) (down m) /\
    length (filter isinstance_Upsample (up m)) = 3%nat.
Proof.
  eexists.
  match goal with
  | |- ?I = Ok ?m /\ _ =>
      assert (Hinit : I = Ok m) by (vm_compute; reflexivity)
  end.
  split; [exact Hinit | ].
  apply DenoiserUNet_init_stacks in Hinit.
  destruct Hinit as (Hd & _ & _ & Hu). split; [exact Hd | exact Hu].
Defined.

(** X16: shape invariance where the wiring of the up stack holds.  A model
    with at least one block per resolution whose multipliers are all equal,
    or with exactly one block per resolution, returns a tensor
    [[B, output_channels, H, W]] for every input [[B, input_channels, H, W]]
    whose height and width are positive multiples [hm] and [wm] of
    [2 ^ (n_resolutions - 1)] with [B * hm * wm > 1], so that the innermost
    maps hold more than one value per channel, the timestep batch having
    the size of the input batch or size 1. *)
Theorem forward_returns_input_size (ic oc n : Z) (ch : list Z) (nb : Z)
    (isn : bool) (m : DenoiserUNet) (B hm wm : Z) (t : option (list Z)) :
  DenoiserUNet_init ic oc n ch nb isn = Ok m ->
  ch <> [] ->
  1 <= nb ->
  widths_agree ch nb ->
  0 < n -> Forall (fun c => 0 < c) ch ->
  0 < B -> 0 < ic -> 0 < oc ->
  0 < hm -> 0 < wm ->
  1 < B * (hm * wm) ->
  timestep_fits isn B t ->
  forward (torch := ShapeTorch) m
    [B; ic; 2 ^ Z.of_nat (length ch - 1) * hm; 2 ^ Z.of_nat (length ch - 1) * wm] t
  = Ok [B; oc; 2 ^ Z.of_nat (length ch - 1) * hm;
        2 ^ Z.of_nat (length ch - 1) * wm].
Proof.
  intros Hinit Hch Hnb Hwire Hn Hpos HB _ Hoc Hhm Hwm Hv Ht.
  apply (forward_shape_when_widths_agree _ _ _ _ _ _ _ B hm wm t
           Hinit Hch Hnb Hwire Hn Hpos Hoc
           (conj HB (conj Hhm (conj Hwm Hv))) Ht).
Qed.

Lemma forward_returns_input_size_witness :
  exists m,
    DenoiserUNet_init 2 1 32 [1; 2; 2; 4] 1 true = Ok m /\
    forward (torch := ShapeTorch) m
      [3; 2; 2 ^ Z.of_nat (length [1; 2; 2; 4] - 1) * 5;
       2 ^ Z.of_nat (length [1; 2; 2; 4] - 1) * 9] (Some [3])
    = Ok [3; 1; 2 ^ Z.of_nat (length [1; 2; 2; 4] - 1) * 5;
          2 ^ Z.of_nat (length [1; 2; 2; 4] - 1) * 9].
Proof.
  eexists. split; [vm_compute; reflexivity | ].
  apply (forward_returns_input_size 2 1 32 [1; 2; 2; 4] 1 true); try lia.
  - vm_compute. reflexivity.
  - discriminate.
  - left. reflexivity.
  - repeat constructor.
  - right. exists 3. split; [reflexivity | left; reflexivity].
Defined.

(** X17: where the wiring fails.  With two or more blocks per resolution and
    two neighbouring levels of different multipliers, [forward] raises
    [RuntimeError] on every such input: the second [UpBlock] of the
    innermost such level is given a concatenation it was not built for. *)
Theorem forward_raises_on_differing_widths (ic oc n : Z) (ch : list Z) (nb : Z)
    (isn : bool) (m : DenoiserUNet) (B hm wm : Z) (t : option (list Z)) :
  DenoiserUNet_init ic oc n ch nb isn = Ok m ->
  2 <= nb ->
  0 < n -> Forall (fun c => 0 < c) ch ->
  (exists j, (S j < length ch)%nat /\ nth j ch 0 <> nth (S j) ch 0) ->
  0 < B -> 0 < hm -> 0 < wm ->
  1 < B * (hm * wm) ->
  timestep_fits isn B t ->
  forward (torch := ShapeTorch) m
    [B; ic; 2 ^ Z.of_nat (length ch - 1) * hm; 2 ^ Z.of_nat (length ch - 1) * wm] t
  = Raise RuntimeError.
Proof.
  intros Hinit Hnb Hn Hpos Hex HB Hhm Hwm Hv Ht.
  apply (forward_raises_when_widths_differ _ _ _ _ _ _ _ B hm wm t
           Hinit Hnb Hn Hpos Hex (conj HB (conj Hhm (conj Hwm Hv))) Ht).
Qed.

Lemma forward_raises_on_differing_widths_witness :
  exists m,
    DenoiserUNet_init 2 1 32 [1; 2; 2; 4] 3 false = Ok m /\
    forward (torch := ShapeTorch) m
      [1; 2; 2 ^ Z.of_nat (length [1; 2; 2; 4] - 1) * 4;
       2 ^ Z.of_nat (length [1; 2; 2; 4] - 1) * 4] None
    = Raise RuntimeError.
Proof.
  eexists. split; [vm_compute; reflexivity | ].
  apply (forward_raises_on_differing_widths 2 1 32 [1; 2; 2; 4] 3 false); try lia.
  - vm_compute. reflexivity.
  - repeat constructor.
  - exists 0%nat. split; [cbn; lia | cbn; lia].
  - left. reflexivity.
Defined.

(** X18: [forward] never returns on an input whose channel count is not the
    [input_channels] the model was built for. *)
Theorem forward_rejects_other_input_widths (ic oc n : Z) (ch : list Z) (nb : Z)
    (isn : bool) (m : DenoiserUNet) (B c H W : Z) (t : option (list Z)) :
  DenoiserUNet_init ic oc n ch nb isn = Ok m ->
  c <> ic ->
  returns (forward (torch := ShapeTorch) m [B; c; H; W] t) = false.
Proof.
  intros Hinit Hc.
  apply (forward_wrong_input_channels _ _ _ _ _ _ _ B c H W t Hinit Hc).
Qed.

Lemma forward_rejects_other_input_widths_witness :
  exists m,
    DenoiserUNet_init 2 1 32 [1; 2; 2; 4] 1 false = Ok m /\
    returns (forward (torch := ShapeTorch) m [1; 3; 64; 64] None) = false.
Proof.
  eexists. split; [vm_compute; reflexivity | ].
  apply (forward_rejects_other_input_widths 2 1 32 [1; 2; 2; 4] 1 false).
  - vm_compute. reflexivity.
  - lia.
Defined.
